(** * gorouter / tcprouter (package simplehttp): request parser, connection
    reader, response writer and server start-up.

    Go strings are byte sequences; they are modelled as [string] (a list of
    8-bit [ascii] values).  The parsed header set is a Go
    [map[string]string], modelled as [gmap string string]. *)

From Stdlib Require Import Ascii String NArith ZArith Lia Bool.
From Equations Require Import Equations.
From stdpp Require Import base option list strings gmap pretty.

Local Open Scope N_scope.

(** ** Package strings (Go standard library), as used by parseRequest *)

Module GoStrings.

Definition byteval (c : ascii) : N := N_of_ascii c.

(** The table [asciiSpace] of package strings: tab, LF, VT, FF, CR, space. *)
Definition asciiSpace (c : ascii) : bool :=
  (9 <=? byteval c) && (byteval c <=? 13) || (byteval c =? 32).

(** [unicode.IsSpace] on the two-byte UTF-8 encodings: U+0085 (C2 85) and
    U+00A0 (C2 A0). *)
Definition spaceRune2 (c1 c2 : ascii) : bool :=
  (byteval c1 =? 0xC2) && ((byteval c2 =? 0x85) || (byteval c2 =? 0xA0)).

(** [unicode.IsSpace] on the three-byte UTF-8 encodings: U+1680 (E1 9A 80),
    U+2000..U+200A (E2 80 80..8A), U+2028, U+2029, U+202F (E2 80 A8/A9/AF),
    U+205F (E2 81 9F) and U+3000 (E3 80 80). *)
Definition spaceRune3 (c1 c2 c3 : ascii) : bool :=
  (byteval c1 =? 0xE1) && (byteval c2 =? 0x9A) && (byteval c3 =? 0x80)
  || (byteval c1 =? 0xE2) && (byteval c2 =? 0x80)
     && ((0x80 <=? byteval c3) && (byteval c3 <=? 0x8A)
         || (byteval c3 =? 0xA8) || (byteval c3 =? 0xA9) || (byteval c3 =? 0xAF))
  || (byteval c1 =? 0xE2) && (byteval c2 =? 0x81) && (byteval c3 =? 0x9F)
  || (byteval c1 =? 0xE3) && (byteval c2 =? 0x80) && (byteval c3 =? 0x80).

(** Width in bytes of the white-space rune that [s] starts with; [0] when
    [s] is empty or starts with anything else (another rune, or bytes that
    are not valid UTF-8 and decode to [RuneError]). *)
Definition spaceWidth (s : string) : nat :=
  match s with
  | String c1 t1 =>
      if asciiSpace c1 then 1%nat else
      match t1 with
      | String c2 t2 =>
          if spaceRune2 c1 c2 then 2%nat else
          match t2 with
          | String c3 _ => if spaceRune3 c1 c2 c3 then 3%nat else 0%nat
          | EmptyString => 0%nat
          end
      | EmptyString => 0%nat
      end
  | EmptyString => 0%nat
  end.

(** [s] is exactly the encoding of one white-space rune. *)
Definition isSpaceRune (s : string) : bool :=
  match spaceWidth s with
  | O => false
  | n => Nat.eqb n (String.length s)
  end.

(** [strings.TrimLeftFunc(s, unicode.IsSpace)]: leading white-space runes
    are removed one after the other. *)
Fixpoint TrimLeftSpace (s : string) : string :=
  match s with
  | String c1 t1 =>
      if asciiSpace c1 then TrimLeftSpace t1 else
      match t1 with
      | String c2 t2 =>
          if spaceRune2 c1 c2 then TrimLeftSpace t2 else
          match t2 with
          | String c3 t3 => if spaceRune3 c1 c2 c3 then TrimLeftSpace t3 else s
          | EmptyString => s
          end
      | EmptyString => s
      end
  | EmptyString => EmptyString
  end.

(** [strings.TrimRightFunc(s, unicode.IsSpace)]: trailing white-space runes
    are removed one after the other.  The last rune of [String c t] is a
    white-space rune that reaches back to [c] exactly when [c] followed by
    what is left of [t] is the encoding of one such rune. *)
Fixpoint TrimRightSpace (s : string) : string :=
  match s with
  | String c t =>
      let t' := TrimRightSpace t in
      if isSpaceRune (String c t') then EmptyString else String c t'
  | EmptyString => EmptyString
  end.

(** [strings.TrimSpace]. *)
Definition TrimSpace (s : string) : string := TrimRightSpace (TrimLeftSpace s).

(** [strings.Cut(s, sep)] for a one-byte separator: the text before and
    after the first [sep], when there is one. *)
Fixpoint Cut (s : string) (sep : ascii) : option (string * string) :=
  match s with
  | String c t =>
      if Ascii.eqb c sep then Some (EmptyString, t)
      else match Cut t sep with
           | Some (a, b) => Some (String c a, b)
           | None => None
           end
  | EmptyString => None
  end.

(** [strings.Split(s, sep)] for a one-byte separator: all the substrings
    between separators; never empty. *)
Fixpoint Split (s : string) (sep : ascii) : list string :=
  match s with
  | String c t =>
      if Ascii.eqb c sep then EmptyString :: Split t sep
      else match Split t sep with
           | h :: r => String c h :: r
           | [] => [String c EmptyString]
           end
  | EmptyString => [EmptyString]
  end.

(** [strings.SplitN(s, sep, n)] for a one-byte separator and [n > 0]: at
    most [n] substrings, the last one being the unsplit remainder. *)
Fixpoint SplitN (s : string) (sep : ascii) (n : nat) : list string :=
  match n with
  | O => []
  | S O => [s]
  | S n' =>
      match Cut s sep with
      | Some (a, b) => a :: SplitN b sep n'
      | None => [s]
      end
  end.

End GoStrings.
Export GoStrings.


(** ** Errors *)

(** Go [error] values met by the server: the sentinel [io.EOF], errors built
    by [fmt.Errorf] (they carry their message and are never equal to a
    sentinel), and errors reported by the network stack. *)
Inductive error : Type :=
  | io_EOF
  | Errorf (msg : string)
  | netError (msg : string).

#[global] Instance error_eq_dec : EqDecision error.
Proof. solve_decision. Defined.

(** ** bufio.Reader *)

Definition LF : ascii := ascii_of_N 10.
Definition CR : ascii := ascii_of_N 13.
Definition SP : ascii := ascii_of_N 32.
Definition COLON : ascii := ascii_of_N 58.
Definition CRLF : string := String CR (String LF EmptyString).

(** The state of a [*bufio.Reader] over a connection: the bytes not yet
    handed out (buffered or still to arrive), and the error with which the
    underlying [Read] ends once they are exhausted ([io.EOF] when the peer
    closes cleanly).  A peer that stays silent for ever is outside the
    model: every stream ends. *)
Record BufReader : Type := mkBufReader {
  pending : string;
  rerr : error
}.

(** [ReadString(delim)] of [bufio.Reader]: the bytes up to and including the
    first [delim]; when the stream ends before a [delim], everything read so
    far together with the error. *)
Definition ReadString (delim : ascii) (r : BufReader)
  : (string * option error) * BufReader :=
  match Cut (pending r) delim with
  | Some (a, b) =>
      ((a +:+ String delim EmptyString, None), mkBufReader b (rerr r))
  | None =>
      ((pending r, Some (rerr r)), mkBufReader EmptyString (rerr r))
  end.

(** ** request.go *)

(** A [*bufio.Reader] pointer. *)
Definition addr := nat.

(** [type Request struct].  [NetConn] is the type of [net.Conn] handles.
    [Reader] is the pointer to the connection's [bufio.Reader]; the state of
    the object it points to is threaded through [parseRequest] as a
    [BufReader]. *)
Record Request (NetConn : Type) : Type := mkRequest {
  Method : string;
  URI : string;
  Headers : gmap string string;
  Conn : NetConn;
  Reader : addr
}.
Arguments mkRequest {NetConn} _ _ _ _ _.
Arguments Method {NetConn} _.
Arguments URI {NetConn} _.
Arguments Headers {NetConn} _.
Arguments Conn {NetConn} _.
Arguments Reader {NetConn} _.

Definition inspect {A : Type} (a : A) : {b : A | a = b} := exist _ a eq_refl.

Lemma Cut_length (s : string) (sep : ascii) (a b : string) :
  Cut s sep = Some (a, b) ->
  (String.length b < String.length s)%nat.
Proof.
  revert a; induction s as [|c t IH]; intros a; simpl; [discriminate|].
  destruct (Ascii.eqb c sep).
  - intros [= <- <-]. lia.
  - destruct (Cut t sep) as [[a' b']|] eqn:E; [|discriminate].
    intros [= <- <-]. specialize (IH _ eq_refl). lia.
Qed.

Lemma ReadString_length (delim : ascii) (r r' : BufReader) (line : string) :
  ReadString delim r = ((line, None), r') ->
  (String.length (pending r') < String.length (pending r))%nat.
Proof.
  unfold ReadString. destruct (Cut (pending r) delim) as [[a b]|] eqn:E.
  - intros [= <- <-]. simpl. eapply Cut_length; eauto.
  - discriminate.
Qed.

(** The header loop of [parseRequest] (lines 141-155): one iteration per
    line read. *)
Equations? readHeaders (r : BufReader) (headers : gmap string string)
  : (gmap string string + error) * BufReader
  by wf (String.length (pending r)) lt :=
readHeaders r headers with inspect (ReadString LF r) := {
  | exist _ ((_, Some err), r') _ => (inr err, r')
  | exist _ ((line, None), r') Hread =>
      let line := TrimSpace line in
      if decide (line = EmptyString) then (inl headers, r')
      else
        match SplitN line COLON 2 with
        | [k; v] =>
            readHeaders r' (<[TrimSpace k := TrimSpace v]> headers)
        | _ => readHeaders r' headers
        end }.
Proof.
  all: eapply ReadString_length; eauto.
Qed.

(** [func parseRequest] (lines 126-164).  [reader] is the pointer, the
    [BufReader] argument the state of the reader it points to; the state
    after the call is returned. *)
Definition parseRequest {NetConn : Type} (reader : addr) (conn : NetConn)
  (r : BufReader) : (Request NetConn + error) * BufReader :=
  match ReadString LF r with
  | ((_, Some err), r1) => (inr err, r1)
  | ((line, None), r1) =>
      let line := TrimSpace line in
      let parts := Split line SP in
      if (length parts <? 3)%nat then
        (inr (Errorf "malformed request line"), r1)
      else
        let method := nth 0 parts EmptyString in
        let uri := nth 1 parts EmptyString in
        match readHeaders r1 ∅ with
        | (inr err, r2) => (inr err, r2)
        | (inl headers, r2) =>
            (inl (mkRequest method uri headers conn reader), r2)
        end
  end.

Lemma readHeaders_eq (r : BufReader) (h : gmap string string) :
  readHeaders r h =
  match ReadString LF r with
  | ((_, Some err), r') => (inr err, r')
  | ((line, None), r') =>
      let line := TrimSpace line in
      if decide (line = EmptyString) then (inl h, r')
      else
        match SplitN line COLON 2 with
        | [k; v] => readHeaders r' (<[TrimSpace k := TrimSpace v]> h)
        | _ => readHeaders r' h
        end
  end.
Proof.
  rewrite readHeaders_equation_1. unfold inspect.
  cut (forall x (e : ReadString LF r = x),
    readHeaders_unfold_clause_1 r (x ↾ e) h =
    match x with
    | ((_, Some err), r') => (inr err, r')
    | ((line, None), r') =>
      let line := TrimSpace line in
      if decide (line = EmptyString) then (inl h, r')
      else
        match SplitN line COLON 2 with
        | [k; v] => readHeaders r' (<[TrimSpace k := TrimSpace v]> h)
        | _ => readHeaders r' h
        end
    end).
  { intros H. apply H. }
  intros [[line [e|]] r'] H; reflexivity.
Qed.

Lemma readHeaders_length (r : BufReader) (h : gmap string string) :
  (String.length (pending (readHeaders r h).2) <= String.length (pending r))%nat.
Proof.
  remember (String.length (pending r)) as n eqn:En.
  revert r h En. induction n as [n IH] using lt_wf_ind. intros r h ->.
  rewrite readHeaders_eq.
  destruct (ReadString LF r) as [[line [e|]] r'] eqn:E.
  - unfold ReadString in E. destruct (Cut (pending r) LF) as [[a b]|]; [discriminate|].
    injection E as <- <- <-. simpl. lia.
  - apply ReadString_length in E. cbv zeta.
    destruct (decide _); [simpl; lia|].
    assert (forall h', (String.length (pending (readHeaders r' h').2)
                        <= String.length (pending r'))%nat) as Hr
      by (intros h'; eapply IH; eauto).
    destruct (SplitN _ _ _) as [|k [|v [|? ?]]]; etrans; try apply Hr; lia.
Qed.

Lemma parseRequest_length {NetConn : Type} (reader : addr) (conn : NetConn)
  (r r' : BufReader) (req : Request NetConn) :
  parseRequest reader conn r = (inl req, r') ->
  (String.length (pending r') < String.length (pending r))%nat.
Proof.
  unfold parseRequest.
  destruct (ReadString LF r) as [[line [e|]] r1] eqn:E; [discriminate|].
  apply ReadString_length in E. cbv zeta.
  destruct (_ <? _)%nat; [discriminate|].
  pose proof (readHeaders_length r1 ∅) as Hl.
  destruct (readHeaders r1 ∅) as [[hs|e] r2]; [|discriminate].
  intros [= <- <-]. simpl in Hl. lia.
Qed.

(** ** response.go *)

(** [net.Conn.Write]: the connection's write operation acts on the state
    [Σ] of the network and returns the count written and an error or nil. *)
Class ConnWrite (NetConn Σ : Type) : Type :=
  conn_Write : NetConn -> list Byte.byte -> Σ -> (Z * option error) * Σ.

Module ResponseWriter.

(** [type ResponseWriter struct { Conn net.Conn }]. *)
Record t (NetConn : Type) : Type := mk { Conn : NetConn }.
Arguments mk {NetConn} _.
Arguments Conn {NetConn} _.

(** [func (w *ResponseWriter) Write(data []byte) (int, error)]. *)
Definition Write {NetConn Σ : Type} `{!ConnWrite NetConn Σ}
  (w : t NetConn) (data : list Byte.byte) : Σ -> (Z * option error) * Σ :=
  conn_Write (Conn w) data.

End ResponseWriter.

(** ** server.go *)

(** A buffered Go channel: its capacity, fixed by [make], and the values
    sent and not yet received, oldest first. *)
Record chan (A : Type) : Type := mkChan {
  chan_cap : nat;
  chan_buf : list A
}.
Arguments mkChan {A} _ _.
Arguments chan_cap {A} _.
Arguments chan_buf {A} _.

(** [make(chan A, n)]. *)
Definition make_chan (A : Type) (n : nat) : chan A := mkChan n [].

(** [ch <- x]: [None] when the buffer is full, in which case the sending
    goroutine stays blocked and nothing changes. *)
Definition chan_send {A : Type} (ch : chan A) (x : A) : option (chan A) :=
  if (length (chan_buf ch) <? chan_cap ch)%nat
  then Some (mkChan (chan_cap ch) (chan_buf ch ++ [x]))
  else None.

(** [x := <-ch] (one iteration of [range ch]): [None] when the buffer is
    empty, in which case the receiving goroutine stays blocked. *)
Definition chan_recv {A : Type} (ch : chan A) : option (A * chan A) :=
  match chan_buf ch with
  | x :: rest => Some (x, mkChan (chan_cap ch) rest)
  | [] => None
  end.

(** [tls.Config], reduced to its certificates. *)
Record tls_Config : Type := mk_tls_Config { Certificates : list string }.

(** [type HandlerFunc func(w *ResponseWriter, r *Request)]: a handler acts
    on the state of the network. *)
Definition HandlerFunc (NetConn Σ : Type) : Type :=
  ResponseWriter.t NetConn -> Request NetConn -> Σ -> Σ.

(** [type Server struct].  [wg] is the counter of the [sync.WaitGroup]. *)
Record Server (NetConn Σ : Type) : Type := mkServer {
  Addr : string;
  Handler : HandlerFunc NetConn Σ;
  workerCount : Z;
  jobQueue : chan (Request NetConn);
  TLSConfig : option tls_Config;
  wg : Z
}.
Arguments mkServer {NetConn Σ} _ _ _ _ _ _.
Arguments Addr {NetConn Σ} _.
Arguments Handler {NetConn Σ} _.
Arguments workerCount {NetConn Σ} _.
Arguments jobQueue {NetConn Σ} _.
Arguments TLSConfig {NetConn Σ} _.
Arguments wg {NetConn Σ} _.

(** [func NewServer(addr string, handler HandlerFunc, workerCount int) *Server]. *)
Definition NewServer {NetConn Σ : Type} (addr : string)
  (handler : HandlerFunc NetConn Σ) (workerCount : Z) : Server NetConn Σ :=
  mkServer addr handler workerCount (make_chan (Request NetConn) 100) None 0%Z.

(** [func (s *Server) SetTLSConfig(certFile, keyFile string) error].  What
    [tls.LoadX509KeyPair] returns for the two files is [loaded]. *)
Definition SetTLSConfig {NetConn Σ : Type} (s : Server NetConn Σ)
  (loaded : string + error) : option error * Server NetConn Σ :=
  match loaded with
  | inr err => (Some err, s)
  | inl cert =>
      (None, mkServer (Addr s) (Handler s) (workerCount s) (jobQueue s)
                      (Some (mk_tls_Config [cert])) (wg s))
  end.

(** What a connection reader does that others can observe. *)
Inductive ConnEvent (NetConn : Type) : Type :=
  | EvEnqueue (req : Request NetConn)
  | EvLog (msg : string)
  | EvClose (conn : NetConn).
Arguments EvEnqueue {NetConn} _.
Arguments EvLog {NetConn} _.
Arguments EvClose {NetConn} _.

(** The [for] loop of [handleConnection] (lines 37-48): the requests sent
    on [s.jobQueue], in order, until [parseRequest] fails.  The block under
    [if err != io.EOF] is empty. *)
Equations? readLoop {NetConn : Type} (reader : addr) (conn : NetConn)
  (r : BufReader) : list (ConnEvent NetConn)
  by wf (String.length (pending r)) lt :=
readLoop reader conn r with inspect (parseRequest reader conn r) := {
  | exist _ (inr err, _) _ =>
      if decide (err <> io_EOF) then [] else []
  | exist _ (inl req, r') Hparse =>
      EvEnqueue req :: readLoop reader conn r' }.
Proof.
  eapply parseRequest_length; eauto.
Qed.

(** [bufio.NewReader(conn)]: a reader over what the connection delivers,
    [incoming] being every byte the peer sends and [e] the error that ends
    the stream. *)
Definition bufio_NewReader (incoming : string) (e : error) : BufReader :=
  mkBufReader incoming e.

(** [func (s *Server) handleConnection(conn net.Conn)].  [reader] is the
    address of the reader that [bufio.NewReader] allocates; [incoming] and
    [e] are what the connection delivers.  [conn.Close()] is deferred, so it
    is the last thing done. *)
Definition handleConnection {NetConn Σ : Type} (s : Server NetConn Σ)
  (conn : NetConn) (reader : addr) (incoming : string) (e : error)
  : list (ConnEvent NetConn) :=
  readLoop reader conn (bufio_NewReader incoming e) ++ [EvClose conn].

(** One iteration of the [range s.jobQueue] loop of [worker] (lines 54-60),
    once [req] has been received. *)
Definition worker_handle {NetConn Σ : Type} (s : Server NetConn Σ)
  (req : Request NetConn) : Σ -> Σ :=
  let w := ResponseWriter.mk (Conn req) in
  Handler s w req.

(** The job queue and the worker goroutines: for each worker, the request
    its handler is running on, or [None] while it waits at [range]. *)
Record Pool (NetConn : Type) : Type := mkPool {
  pool_queue : chan (Request NetConn);
  pool_workers : list (option (Request NetConn))
}.
Arguments mkPool {NetConn} _ _.
Arguments pool_queue {NetConn} _.
Arguments pool_workers {NetConn} _.

(** A connection reader executes [s.jobQueue <- req]. *)
Definition pool_enqueue {NetConn : Type} (req : Request NetConn)
  (p : Pool NetConn) : option (Pool NetConn) :=
  match chan_send (pool_queue p) req with
  | Some q => Some (mkPool q (pool_workers p))
  | None => None
  end.

(** Worker [i], waiting at [range s.jobQueue], receives the next request and
    enters the handler. *)
Definition pool_dequeue {NetConn : Type} (i : nat) (p : Pool NetConn)
  : option (Pool NetConn) :=
  match pool_workers p !! i with
  | Some None =>
      match chan_recv (pool_queue p) with
      | Some (req, q) => Some (mkPool q (<[i := Some req]> (pool_workers p)))
      | None => None
      end
  | _ => None
  end.

(** The handler that worker [i] runs returns; the worker is back at
    [range]. *)
Definition pool_return {NetConn : Type} (i : nat) (p : Pool NetConn)
  : option (Pool NetConn) :=
  match pool_workers p !! i with
  | Some (Some _) => Some (mkPool (pool_queue p) (<[i := None]> (pool_workers p)))
  | _ => None
  end.

(** What [listener.Accept()] returns: an error, or a connection, with
    whether its dynamic type is [*net.TCPConn] and what [SetNoDelay(true)]
    returns on it. *)
Inductive AcceptOutcome (NetConn : Type) : Type :=
  | AcceptError (err : error)
  | AcceptConn (conn : NetConn) (tcp : bool) (nodelay : option error).
Arguments AcceptError {NetConn} _.
Arguments AcceptConn {NetConn} _ _ _.

(** The network as [Start] sees it: what [net.Listen] returns ([None] for a
    listener), and what the successive calls of [Accept] return. *)
Record NetEnv (NetConn : Type) : Type := mkNetEnv {
  listen_err : option error;
  accepts : list (AcceptOutcome NetConn)
}.
Arguments mkNetEnv {NetConn} _ _.
Arguments listen_err {NetConn} _.
Arguments accepts {NetConn} _.

Inductive StartEvent (NetConn : Type) : Type :=
  | SeWrapTLS (cfg : tls_Config)
  | SeGoWorker (id : Z)
  | SeLog (format : string) (err : error)
  | SeSetNoDelay (conn : NetConn)
  | SeGoHandleConnection (conn : NetConn).
Arguments SeWrapTLS {NetConn} _.
Arguments SeGoWorker {NetConn} _.
Arguments SeLog {NetConn} _ _.
Arguments SeSetNoDelay {NetConn} _.
Arguments SeGoHandleConnection {NetConn} _.

(** The accept loop of [Start] (lines 89-105), over the outcomes of the
    successive [Accept] calls. *)
Fixpoint acceptLoop {NetConn : Type} (outcomes : list (AcceptOutcome NetConn))
  : list (StartEvent NetConn) :=
  match outcomes with
  | [] => []
  | AcceptError err :: rest =>
      SeLog "Error accepting connection: %v" err :: acceptLoop rest
  | AcceptConn conn tcp nodelay :: rest =>
      (if tcp then
         SeSetNoDelay conn ::
         match nodelay with
         | Some err => [SeLog "Failed to set TCP_NODELAY: %v" err]
         | None => []
         end
       else [])
      ++ SeGoHandleConnection conn :: acceptLoop rest
  end.

(** The worker-spawning loop of [Start] (lines 83-86): [n] more iterations
    from counter [i]. *)
Fixpoint spawnWorkers {NetConn : Type} (n : nat) (i : Z) : list (StartEvent NetConn) :=
  match n with
  | O => []
  | S n' => SeGoWorker i :: spawnWorkers n' (i + 1)%Z
  end.

(** [Start] returns only when [net.Listen] fails; otherwise it stays in the
    accept loop. *)
Inductive StartResult : Type :=
  | StartReturned (err : error)
  | StartServing.

(** [func (s *Server) Start() error]: the result, the server afterwards and
    what was done. *)
Definition Start {NetConn Σ : Type} (s : Server NetConn Σ) (env : NetEnv NetConn)
  : StartResult * Server NetConn Σ * list (StartEvent NetConn) :=
  match listen_err env with
  | Some err => (StartReturned err, s, [])
  | None =>
      let wrap := match TLSConfig s with
                  | Some cfg => [SeWrapTLS cfg]
                  | None => []
                  end in
      let n := Z.to_nat (workerCount s) in
      let s' := mkServer (Addr s) (Handler s) (workerCount s) (jobQueue s)
                         (TLSConfig s) (wg s + Z.of_nat n)%Z in
      (StartServing, s', wrap ++ spawnWorkers n 0%Z ++ acceptLoop (accepts env))
  end.


(** ** Vocabulary of the statements *)

(** A byte below 0x80. *)
Definition low (c : ascii) : bool := byteval c <? 128.

(** A byte below 0x80 that is not white space: it belongs to no white-space
    rune. *)
Definition plain (c : ascii) : bool := (byteval c <? 128) && negb (asciiSpace c).

(** [c] occurs in [s]. *)
Fixpoint hasByte (c : ascii) (s : string) : bool :=
  match s with
  | String x t => Ascii.eqb x c || hasByte c t
  | EmptyString => false
  end.

(** The bytes on the wire for a sequence of lines, each one ended by LF (a
    line that ends with CR is thus ended by CRLF). *)
Fixpoint wire (lines : list string) : string :=
  match lines with
  | l :: ls => l +:+ String LF (wire ls)
  | [] => EmptyString
  end.

(** A line that can be read as such: it holds no LF. *)
Definition isLine (l : string) : Prop := hasByte LF l = false.

(** A line that ends the header block: nothing but white space. *)
Definition isBlank (l : string) : Prop := TrimSpace l = EmptyString.

(** What the specification says of one header line, given the headers so
    far: [each non-empty line is split on the first colon into header
    name/value, both trimmed of surrounding whitespace; a line with no colon
    is silently skipped], and [last-write-wins on duplicate header names]. *)
Definition spec_header_line (h : gmap string string) (l : string)
  : gmap string string :=
  match Cut l COLON with
  | Some (name, value) => <[TrimSpace name := TrimSpace value]> h
  | None => h
  end.

(** The header mapping of a block of header lines, according to the
    specification. *)
Definition spec_headers (block : list string) : gmap string string :=
  foldl spec_header_line ∅ block.

(** A header line [name:value] as sent. *)
Definition header_line (nv : string * string) : string :=
  nv.1 +:+ String COLON nv.2.

(** Connection readers execute [s.jobQueue <- req] for each of [reqs] in
    turn; [None] as soon as one of them has to wait. *)
Fixpoint pool_enqueue_all {NetConn : Type} (reqs : list (Request NetConn))
  (p : Pool NetConn) : option (Pool NetConn) :=
  match reqs with
  | [] => Some p
  | req :: rest =>
      match pool_enqueue req p with
      | Some p' => pool_enqueue_all rest p'
      | None => None
      end
  end.

(** ** Concrete inputs *)

(** A server over connections that are mere tokens, with a handler that
    does nothing. *)
Definition demo_server : Server unit unit :=
  NewServer ":50051" (fun _ _ σ => σ) 1%Z.

Definition demo_request_line : string := "GET /hello HTTP/1.1" +:+ String CR "".

Definition demo_headers : list (string * string) :=
  [ ("Host", " example" +:+ String CR "");
    ("Accept ", " */* " +:+ String CR "");
    ("Host", " other" +:+ String CR "") ].

Definition demo_stream : string :=
  "GET / HTTP/1.1" +:+ CRLF +:+ "Host: a" +:+ CRLF +:+ CRLF +:+ "body".

Definition demo_request (uri : string) : Request unit :=
  mkRequest "GET" uri ∅ tt 1%nat.

(** ** Runs of the job queue and the workers *)

(** What the goroutines around the job queue do, one at a time. *)
Inductive PoolAction (NetConn : Type) : Type :=
  | ActEnqueue (req : Request NetConn)
  | ActDequeue (i : nat)
  | ActReturn (i : nat).
Arguments ActEnqueue {NetConn} _.
Arguments ActDequeue {NetConn} _.
Arguments ActReturn {NetConn} _.

(** One action, when the goroutine that takes it is not blocked. *)
Definition pool_step {NetConn : Type} (act : PoolAction NetConn) (p : Pool NetConn)
  : option (Pool NetConn) :=
  match act with
  | ActEnqueue req => pool_enqueue req p
  | ActDequeue i => pool_dequeue i p
  | ActReturn i => pool_return i p
  end.

(** A schedule: every action is taken when it is its turn, or the schedule
    is not one the program can follow. *)
Fixpoint pool_run {NetConn : Type} (acts : list (PoolAction NetConn))
  (p : Pool NetConn) : option (Pool NetConn) :=
  match acts with
  | [] => Some p
  | act :: rest =>
      match pool_step act p with
      | Some p' => pool_run rest p'
      | None => None
      end
  end.

(** The requests sent along a schedule, in order. *)
Definition enqueued {NetConn : Type} (acts : list (PoolAction NetConn))
  : list (Request NetConn) :=
  omap (fun act => match act with ActEnqueue req => Some req | _ => None end) acts.

(** The requests that workers received along a schedule, in order. *)
Fixpoint received {NetConn : Type} (acts : list (PoolAction NetConn))
  (p : Pool NetConn) : list (Request NetConn) :=
  match acts with
  | [] => []
  | act :: rest =>
      match pool_step act p with
      | Some p' =>
          match act, chan_buf (pool_queue p) with
          | ActDequeue _, req :: _ => req :: received rest p'
          | _, _ => received rest p'
          end
      | None => []
      end
  end.

(** The requests that workers are running a handler on. *)
Definition in_handler {NetConn : Type} (p : Pool NetConn) : list (Request NetConn) :=
  omap id (pool_workers p).

(** ** Readings of the trace of [Start] *)

Definition worker_ids {NetConn : Type} (tr : list (StartEvent NetConn)) : list Z :=
  omap (fun ev => match ev with SeGoWorker id => Some id | _ => None end) tr.

Definition served_conns {NetConn : Type} (tr : list (StartEvent NetConn))
  : list NetConn :=
  omap (fun ev => match ev with SeGoHandleConnection c => Some c | _ => None end) tr.

Definition nodelay_conns {NetConn : Type} (tr : list (StartEvent NetConn))
  : list NetConn :=
  omap (fun ev => match ev with SeSetNoDelay c => Some c | _ => None end) tr.

Definition logged {NetConn : Type} (tr : list (StartEvent NetConn))
  : list (string * error) :=
  omap (fun ev => match ev with SeLog f e => Some (f, e) | _ => None end) tr.

Definition tls_wraps {NetConn : Type} (tr : list (StartEvent NetConn))
  : list tls_Config :=
  omap (fun ev => match ev with SeWrapTLS cfg => Some cfg | _ => None end) tr.

Definition accepted_conns {NetConn : Type} (outcomes : list (AcceptOutcome NetConn))
  : list NetConn :=
  omap (fun o => match o with AcceptConn c _ _ => Some c | _ => None end) outcomes.

Definition accepted_tcp_conns {NetConn : Type}
  (outcomes : list (AcceptOutcome NetConn)) : list NetConn :=
  omap (fun o => match o with AcceptConn c true _ => Some c | _ => None end) outcomes.

(** What [Start] logs for the outcomes of [Accept]: the accept errors, and
    the failures of [SetNoDelay] on TCP connections. *)
Definition accept_logs {NetConn : Type} (outcomes : list (AcceptOutcome NetConn))
  : list (string * error) :=
  omap (fun o => match o with
                 | AcceptError err => Some ("Error accepting connection: %v", err)
                 | AcceptConn _ true (Some err) =>
                     Some ("Failed to set TCP_NODELAY: %v", err)
                 | _ => None
                 end) outcomes.

(** ** Requests on the wire *)






(** ** server/tests/runperf_tls.go *)









(** ** server/server.go *)

Definition defaultHandler_body : string := "Hello!" +:+ String LF EmptyString.


(** The response that [defaultHandler] builds (lines 53-57) when [range
    headers] yields the entries in the order [order]. *)
Definition defaultHandler_response (order : list (string * string)) : string :=
  foldl (fun response kv => response +:+ (kv.1 +:+ ": " +:+ kv.2 +:+ CRLF))
        ("HTTP/1.1 200 OK" +:+ CRLF) order
  +:+ (CRLF +:+ defaultHandler_body).

(** [func defaultHandler(w *simplehttp.ResponseWriter, r *simplehttp.Request)]:
    the state of the network afterwards, and what is logged.  The order in
    which Go iterates over the map is not fixed; [order] is the one taken. *)
Definition defaultHandler {NetConn Σ : Type} `{!ConnWrite NetConn Σ}
  (order : list (string * string))
  (w : ResponseWriter.t NetConn) (r : Request NetConn) (σ : Σ)
  : Σ * list (string * error) :=
  let response := defaultHandler_response order in
  match ResponseWriter.Write w (String.list_byte_of_string response) σ with
  | ((_, Some err), σ') => (σ', [("Failed to write response: %v", err)])
  | ((_, None), σ') => (σ', [])
  end.

(** What [main] of the load generator makes of its [-url] flag (lines
    38-45): a refusal, a run-time panic of the slice expression
    [urlParts[0][:len(urlParts[0])-1]], or scheme, host and path. *)
Inductive URLSplit : Type :=
  | URLInvalid
  | URLPanic
  | URLParts (scheme host path : string).

Definition SLASH : ascii := ascii_of_N 47.

Definition splitURL (url : string) : URLSplit :=
  let urlParts := SplitN url SLASH 4 in
  if (length urlParts <? 4)%nat then URLInvalid
  else
    let first := nth 0 urlParts EmptyString in
    match String.length first with
    | O => URLPanic
    | S k =>
        URLParts (substring 0 k first) (nth 2 urlParts EmptyString)
                 (String SLASH (nth 3 urlParts EmptyString))
    end.

(** ** More concrete inputs *)

Definition demo_env : NetEnv unit :=
  mkNetEnv None
    [ AcceptError (netError "too many open files");
      AcceptConn tt true None;
      AcceptConn tt false None;
      AcceptConn tt true (Some (netError "not supported")) ].


Definition demo_schedule : list (PoolAction unit) :=
  [ ActEnqueue (demo_request "/1"); ActEnqueue (demo_request "/2");
    ActDequeue 0; ActEnqueue (demo_request "/3"); ActReturn 0; ActDequeue 0 ].

Definition demo_pool : Pool unit := mkPool (mkChan 2 []) [None].

Definition demo_pool_after : Pool unit :=
  mkPool (mkChan 2 [demo_request "/3"]) [Some (demo_request "/2")].

(** * Theorems *)

(** * Strings: append *)

Lemma sapp_nil_l (s : string) : "" +:+ s = s.
Proof. reflexivity. Qed.

Lemma sapp_cons (c : ascii) (a b : string) : String c a +:+ b = String c (a +:+ b).
Proof. reflexivity. Qed.


Lemma sapp_assoc (a b c : string) : (a +:+ b) +:+ c = a +:+ (b +:+ c).
Proof. induction a as [|x t IH]; [reflexivity|]. rewrite !sapp_cons, IH. reflexivity. Qed.

Lemma sapp_length (a b : string) :
  String.length (a +:+ b) = (String.length a + String.length b)%nat.
Proof. induction a as [|x t IH]; [reflexivity|]. rewrite sapp_cons. simpl. rewrite IH. reflexivity. Qed.

(** * Byte classes *)

Ltac bool_prop_in H :=
  repeat first
    [ rewrite andb_true_iff in H | rewrite orb_true_iff in H
    | rewrite negb_true_iff in H | rewrite <- not_true_iff_false in H
    | rewrite N.eqb_eq in H | rewrite N.leb_le in H | rewrite N.ltb_lt in H ].

Ltac bool_prop :=
  repeat first
    [ rewrite andb_true_iff | rewrite orb_true_iff
    | rewrite negb_true_iff | rewrite <- not_true_iff_false
    | rewrite N.eqb_eq | rewrite N.leb_le | rewrite N.ltb_lt ].

Ltac bytes :=
  unfold plain, low, asciiSpace, spaceRune2, spaceRune3 in *;
  repeat match goal with
  | H : _ |- _ => progress (bool_prop_in H)
  end;
  bool_prop;
  try lia.


Lemma spaceRune2_high c1 c2 :
  spaceRune2 c1 c2 = true -> low c1 = false /\ low c2 = false /\ asciiSpace c1 = false.
Proof. intros H. repeat split; bytes. Qed.

Lemma spaceRune3_high c1 c2 c3 :
  spaceRune3 c1 c2 c3 = true ->
  low c1 = false /\ low c2 = false /\ low c3 = false /\ asciiSpace c1 = false.
Proof. intros H. repeat split; bytes. Qed.

Lemma spaceRune2_not3 c1 c2 c3 : spaceRune2 c1 c2 = true -> spaceRune3 c1 c2 c3 = false.
Proof. intros H. bytes. Qed.

(** The second or third byte of a white-space rune starts no white-space rune. *)
Lemma spaceRune2_cont c1 c2 x y :
  spaceRune2 c1 c2 = true ->
  asciiSpace c2 = false /\ spaceRune2 c2 x = false /\ spaceRune3 c2 x y = false.
Proof. intros H. repeat split; bytes. Qed.

Lemma spaceRune3_cont c1 c2 c3 x y :
  spaceRune3 c1 c2 c3 = true ->
  asciiSpace c2 = false /\ spaceRune2 c2 x = false /\ spaceRune3 c2 x y = false /\
  asciiSpace c3 = false /\ spaceRune2 c3 x = false /\ spaceRune3 c3 x y = false /\
  spaceRune2 c1 c2 = false.
Proof. intros H. repeat split; bytes. Qed.

(** * White-space runes at the start of a string *)

Lemma spaceWidth_cases (s : string) :
  (spaceWidth s = 0%nat) \/
  (exists c t, s = String c t /\ asciiSpace c = true /\ spaceWidth s = 1%nat) \/
  (exists c1 c2 t, s = String c1 (String c2 t) /\ asciiSpace c1 = false /\
     spaceRune2 c1 c2 = true /\ spaceWidth s = 2%nat) \/
  (exists c1 c2 c3 t, s = String c1 (String c2 (String c3 t)) /\
     asciiSpace c1 = false /\ spaceRune2 c1 c2 = false /\
     spaceRune3 c1 c2 c3 = true /\ spaceWidth s = 3%nat).
Proof.
  destruct s as [|c1 [|c2 [|c3 t]]]; simpl; auto.
  - destruct (asciiSpace c1) eqn:E1; eauto 10.
  - destruct (asciiSpace c1) eqn:E1; [eauto 10|].
    destruct (spaceRune2 c1 c2) eqn:E2; eauto 10.
  - destruct (asciiSpace c1) eqn:E1; [eauto 10|].
    destruct (spaceRune2 c1 c2) eqn:E2; [right; right; left; eauto 10|].
    destruct (spaceRune3 c1 c2 c3) eqn:E3; [|auto].
    right; right; right. eauto 10.
Qed.

Lemma TrimLeftSpace_space c t :
  asciiSpace c = true -> TrimLeftSpace (String c t) = TrimLeftSpace t.
Proof. intros H. simpl. rewrite H. reflexivity. Qed.

Lemma TrimLeftSpace_rune2 c1 c2 t :
  spaceRune2 c1 c2 = true ->
  TrimLeftSpace (String c1 (String c2 t)) = TrimLeftSpace t.
Proof.
  intros H. destruct (spaceRune2_high _ _ H) as (_ & _ & Hs).
  simpl. rewrite Hs, H. reflexivity.
Qed.

Lemma TrimLeftSpace_rune3 c1 c2 c3 t :
  spaceRune3 c1 c2 c3 = true ->
  TrimLeftSpace (String c1 (String c2 (String c3 t))) = TrimLeftSpace t.
Proof.
  intros H. destruct (spaceRune3_high _ _ _ H) as (_ & _ & _ & Hs).
  destruct (spaceRune3_cont _ _ _ c3 c3 H) as (_ & _ & _ & _ & _ & _ & H2).
  simpl. rewrite Hs, H2, H. reflexivity.
Qed.

Lemma TrimLeftSpace_stop s : spaceWidth s = 0%nat -> TrimLeftSpace s = s.
Proof.
  destruct s as [|c1 [|c2 [|c3 t]]]; simpl; auto.
  - destruct (asciiSpace c1); [discriminate|auto].
  - destruct (asciiSpace c1); [discriminate|].
    destruct (spaceRune2 c1 c2); [discriminate|auto].
  - destruct (asciiSpace c1); [discriminate|].
    destruct (spaceRune2 c1 c2); [discriminate|].
    destruct (spaceRune3 c1 c2 c3); [discriminate|auto].
Qed.

(** Induction along the runes that [TrimLeftSpace] removes. *)
Lemma TrimLeftSpace_ind (P : string -> Prop) :
  (forall s, spaceWidth s = 0%nat -> P s) ->
  (forall c t, asciiSpace c = true -> P t -> P (String c t)) ->
  (forall c1 c2 t, spaceRune2 c1 c2 = true -> P t -> P (String c1 (String c2 t))) ->
  (forall c1 c2 c3 t, spaceRune3 c1 c2 c3 = true -> P t ->
     P (String c1 (String c2 (String c3 t)))) ->
  forall s, P s.
Proof.
  intros H0 H1 H2 H3 s.
  remember (String.length s) as n eqn:En. revert s En.
  induction n as [n IH] using lt_wf_ind. intros s ->.
  destruct (spaceWidth_cases s) as [E|[(c & t & -> & E & _)|[(c1 & c2 & t & -> & _ & E & _)|
    (c1 & c2 & c3 & t & -> & _ & _ & E & _)]]].
  - auto.
  - apply H1; [auto|]. eapply IH; [|reflexivity]. simpl; lia.
  - apply H2; [auto|]. eapply IH; [|reflexivity]. simpl; lia.
  - apply H3; [auto|]. eapply IH; [|reflexivity]. simpl; lia.
Qed.

Lemma TrimLeftSpace_width s : spaceWidth (TrimLeftSpace s) = 0%nat.
Proof.
  induction s using TrimLeftSpace_ind.
  - rewrite TrimLeftSpace_stop; auto.
  - rewrite TrimLeftSpace_space; auto.
  - rewrite TrimLeftSpace_rune2; auto.
  - rewrite TrimLeftSpace_rune3; auto.
Qed.

Lemma TrimLeftSpace_idem s : TrimLeftSpace (TrimLeftSpace s) = TrimLeftSpace s.
Proof. apply TrimLeftSpace_stop, TrimLeftSpace_width. Qed.

(** What [TrimLeftSpace] returns is a suffix of its argument. *)
Lemma TrimLeftSpace_suffix s : exists w, s = w +:+ TrimLeftSpace s.
Proof.
  induction s using TrimLeftSpace_ind.
  - exists "". rewrite TrimLeftSpace_stop; auto.
  - destruct IHs as [w Hw]. exists (String c w).
    rewrite TrimLeftSpace_space, sapp_cons, <- Hw; auto.
  - destruct IHs as [w Hw]. exists (String c1 (String c2 w)).
    rewrite TrimLeftSpace_rune2, !sapp_cons, <- Hw; auto.
  - destruct IHs as [w Hw]. exists (String c1 (String c2 (String c3 w))).
    rewrite TrimLeftSpace_rune3, !sapp_cons, <- Hw; auto.
Qed.

(** A byte below 0x80 is not part of a multi-byte rune: appending it (and
    more) does not turn the start of a string into a white-space rune. *)
Lemma spaceWidth_app_low a c b :
  a <> "" -> spaceWidth a = 0%nat -> low c = true ->
  spaceWidth (a +:+ String c b) = 0%nat.
Proof.
  intros Ha Hw Hc.
  destruct a as [|c1 [|c2 [|c3 t]]]; [done|..]; rewrite ?sapp_cons, ?sapp_nil_l;
    simpl in *.
  - destruct (asciiSpace c1); [discriminate|].
    assert (spaceRune2 c1 c = false) as -> by bytes.
    destruct b; [reflexivity|].
    assert (spaceRune3 c1 c a = false) as -> by bytes. reflexivity.
  - destruct (asciiSpace c1); [discriminate|].
    destruct (spaceRune2 c1 c2); [discriminate|].
    assert (spaceRune3 c1 c2 c = false) as -> by bytes. reflexivity.
  - destruct (asciiSpace c1); [discriminate|].
    destruct (spaceRune2 c1 c2); [discriminate|].
    destruct (spaceRune3 c1 c2 c3); [discriminate|]. reflexivity.
Qed.

Lemma TrimLeftSpace_app_low a c b :
  low c = true ->
  TrimLeftSpace (a +:+ String c b) =
  if decide (TrimLeftSpace a = "") then TrimLeftSpace (String c b)
  else TrimLeftSpace a +:+ String c b.
Proof.
  intros Hc. induction a using TrimLeftSpace_ind.
  - rewrite (TrimLeftSpace_stop a) by auto.
    destruct (decide (a = "")) as [->|Ha]; [reflexivity|].
    apply TrimLeftSpace_stop, spaceWidth_app_low; auto.
  - rewrite sapp_cons, !(TrimLeftSpace_space c0) by auto. auto.
  - rewrite !sapp_cons, !(TrimLeftSpace_rune2 c1 c2) by auto. auto.
  - rewrite !sapp_cons, !(TrimLeftSpace_rune3 c1 c2 c3) by auto. auto.
Qed.

Lemma spaceWidth_plain c t : plain c = true -> spaceWidth (String c t) = 0%nat.
Proof.
  intros Hc. simpl.
  assert (asciiSpace c = false) as -> by bytes.
  destruct t as [|c2 [|c3 t]]; [reflexivity|..].
  - assert (spaceRune2 c c2 = false) as -> by bytes. reflexivity.
  - assert (spaceRune2 c c2 = false) as -> by bytes.
    assert (spaceRune3 c c2 c3 = false) as -> by bytes. reflexivity.
Qed.

Lemma plain_low c : plain c = true -> low c = true.
Proof. intros H. bytes. Qed.

Lemma TrimLeftSpace_app_plain a c b :
  plain c = true ->
  TrimLeftSpace (a +:+ String c b) = TrimLeftSpace a +:+ String c b.
Proof.
  intros Hc. rewrite TrimLeftSpace_app_low by (apply plain_low; auto).
  destruct (decide _) as [->|]; [|reflexivity].
  rewrite sapp_nil_l. apply TrimLeftSpace_stop, spaceWidth_plain; auto.
Qed.

(** * White-space runes at the end of a string *)

Lemma isSpaceRune_inv (s : string) :
  isSpaceRune s = true ->
  (exists c, s = String c "" /\ asciiSpace c = true) \/
  (exists c1 c2, s = String c1 (String c2 "") /\ spaceRune2 c1 c2 = true) \/
  (exists c1 c2 c3, s = String c1 (String c2 (String c3 "")) /\
     spaceRune3 c1 c2 c3 = true).
Proof.
  unfold isSpaceRune.
  destruct (spaceWidth_cases s) as [E|[(c & t & -> & E & W)|[(c1 & c2 & t & -> & _ & E & W)|
    (c1 & c2 & c3 & t & -> & _ & _ & E & W)]]]; rewrite ?E, ?W; [discriminate|..];
    intros Hl%Nat.eqb_eq; simpl in Hl; destruct t; try discriminate; eauto 10.
Qed.

Lemma isSpaceRune_space c t :
  asciiSpace c = true -> isSpaceRune (String c t) = true <-> t = "".
Proof.
  intros H. unfold isSpaceRune. simpl. rewrite H.
  destruct t; simpl; split; intros; try done.
Qed.

Lemma isSpaceRune_rune2 c1 c2 t :
  spaceRune2 c1 c2 = true -> isSpaceRune (String c1 (String c2 t)) = true <-> t = "".
Proof.
  intros H. destruct (spaceRune2_high _ _ H) as (_ & _ & Hs).
  unfold isSpaceRune. simpl. rewrite Hs, H.
  destruct t; simpl; split; intros; try done.
Qed.

Lemma isSpaceRune_rune3 c1 c2 c3 t :
  spaceRune3 c1 c2 c3 = true ->
  isSpaceRune (String c1 (String c2 (String c3 t))) = true <-> t = "".
Proof.
  intros H. destruct (spaceRune3_high _ _ _ H) as (_ & _ & _ & Hs).
  destruct (spaceRune3_cont _ _ _ c3 c3 H) as (_ & _ & _ & _ & _ & _ & H2).
  unfold isSpaceRune. simpl. rewrite Hs, H2, H.
  destruct t; simpl; split; intros; try done.
Qed.

Lemma isSpaceRune_width0 s : spaceWidth s = 0%nat -> isSpaceRune s = false.
Proof. unfold isSpaceRune. intros ->. reflexivity. Qed.

(** The width of the leading rune depends on that rune alone. *)
Lemma spaceWidth_app p w :
  spaceWidth p <> 0%nat -> spaceWidth (p +:+ w) = spaceWidth p.
Proof.
  destruct (spaceWidth_cases p) as [E|[(c & t & -> & E & W)|[(c1 & c2 & t & -> & E1 & E & W)|
    (c1 & c2 & c3 & t & -> & E1 & E2 & E & W)]]]; [done|..]; intros _;
    rewrite W, !sapp_cons; simpl; rewrite ?E1, ?E2, ?E; reflexivity.
Qed.

Lemma TrimRightSpace_cons c t :
  TrimRightSpace (String c t) =
  if isSpaceRune (String c (TrimRightSpace t)) then ""
  else String c (TrimRightSpace t).
Proof. reflexivity. Qed.

(** What [TrimRightSpace] returns is a prefix of its argument. *)
Lemma TrimRightSpace_prefix s : exists w, s = TrimRightSpace s +:+ w.
Proof.
  induction s as [|c t [w Hw]]; [exists ""; reflexivity|].
  rewrite TrimRightSpace_cons. destruct (isSpaceRune _).
  - eexists. rewrite sapp_nil_l. reflexivity.
  - exists w. rewrite sapp_cons, <- Hw. reflexivity.
Qed.

Lemma TrimRightSpace_idem s : TrimRightSpace (TrimRightSpace s) = TrimRightSpace s.
Proof.
  induction s as [|c t IH]; [reflexivity|].
  rewrite TrimRightSpace_cons. destruct (isSpaceRune _) eqn:E; [reflexivity|].
  rewrite TrimRightSpace_cons, IH, E. reflexivity.
Qed.

(** Trailing white space does not matter. *)
Lemma TrimRightSpace_app_blank s w :
  TrimRightSpace w = "" -> TrimRightSpace (s +:+ w) = TrimRightSpace s.
Proof.
  intros Hw. induction s as [|c t IH]; [rewrite sapp_nil_l; auto|].
  rewrite sapp_cons, !TrimRightSpace_cons, IH. reflexivity.
Qed.

Lemma isSpaceRune_plain_inside x a c b :
  plain c = true -> isSpaceRune (String x (a +:+ String c b)) = false.
Proof.
  intros Hc. apply not_true_iff_false. intros H.
  apply isSpaceRune_inv in H as [(y & E & _)|[(c1 & c2 & E & H)|(c1 & c2 & c3 & E & H)]].
  - destruct a; discriminate.
  - destruct a as [|? [|? ?]]; rewrite ?sapp_cons, ?sapp_nil_l in E; simplify_eq.
    bytes.
  - destruct a as [|? [|? [|? ?]]]; rewrite ?sapp_cons, ?sapp_nil_l in E; simplify_eq;
      bytes.
Qed.

Lemma TrimRightSpace_plain c b :
  plain c = true -> TrimRightSpace (String c b) = String c (TrimRightSpace b).
Proof.
  intros Hc. rewrite TrimRightSpace_cons.
  rewrite isSpaceRune_width0; [reflexivity|]. apply spaceWidth_plain; auto.
Qed.

Lemma TrimRightSpace_app_plain a c b :
  plain c = true ->
  TrimRightSpace (a +:+ String c b) = a +:+ String c (TrimRightSpace b).
Proof.
  intros Hc. induction a as [|x t IH].
  - rewrite !sapp_nil_l. apply TrimRightSpace_plain; auto.
  - rewrite !sapp_cons, TrimRightSpace_cons, IH.
    rewrite isSpaceRune_plain_inside; auto.
Qed.

(** A string that does not start with a white-space rune keeps its first
    byte, and still does not start with one once trimmed on the right. *)
Lemma TrimRightSpace_width0 s :
  spaceWidth s = 0%nat -> spaceWidth (TrimRightSpace s) = 0%nat.
Proof.
  intros Hs. destruct (TrimRightSpace_prefix s) as [w Hw].
  destruct (Nat.eq_dec (spaceWidth (TrimRightSpace s)) 0%nat) as [|Hn]; [auto|].
  apply (spaceWidth_app _ w) in Hn as Hn'. rewrite <- Hw in Hn'. congruence.
Qed.

(** Removing white space on the left and on the right commute. *)
Lemma TrimLeftSpace_TrimRightSpace s :
  TrimLeftSpace (TrimRightSpace s) = TrimRightSpace (TrimLeftSpace s).
Proof.
  induction s using TrimLeftSpace_ind.
  - rewrite (TrimLeftSpace_stop s) by auto.
    apply TrimLeftSpace_stop, TrimRightSpace_width0; auto.
  - rewrite (TrimLeftSpace_space c) by auto. rewrite <- IHs.
    rewrite TrimRightSpace_cons.
    destruct (isSpaceRune _) eqn:E.
    + apply isSpaceRune_space in E as ->; auto.
    + apply TrimLeftSpace_space; auto.
  - rewrite (TrimLeftSpace_rune2 c1 c2) by auto. rewrite <- IHs.
    destruct (spaceRune2_cont _ _ c2 c2 H) as (Hc2 & _).
    rewrite TrimRightSpace_cons, (TrimRightSpace_cons c2).
    assert (isSpaceRune (String c2 (TrimRightSpace s)) = false) as ->.
    { apply not_true_iff_false. intros E.
      apply isSpaceRune_inv in E as [(y & E & ?)|[(y1 & y2 & E & ?)|(y1 & y2 & y3 & E & ?)]];
        simplify_eq.
      - congruence.
      - destruct (spaceRune2_cont _ _ y2 y2 H) as (_ & ? & _). congruence.
      - destruct (spaceRune2_cont _ _ y2 y3 H) as (_ & _ & ?). congruence. }
    destruct (isSpaceRune _) eqn:E.
    + apply isSpaceRune_rune2 in E as ->; auto.
    + apply TrimLeftSpace_rune2; auto.
  - rewrite (TrimLeftSpace_rune3 c1 c2 c3) by auto. rewrite <- IHs.
    rewrite TrimRightSpace_cons, (TrimRightSpace_cons c2), (TrimRightSpace_cons c3).
    assert (isSpaceRune (String c3 (TrimRightSpace s)) = false) as ->.
    { apply not_true_iff_false. intros E.
      apply isSpaceRune_inv in E as [(y & E & ?)|[(y1 & y2 & E & ?)|(y1 & y2 & y3 & E & ?)]];
        simplify_eq.
      - destruct (spaceRune3_cont _ _ _ y y H) as (_ & _ & _ & ? & _). congruence.
      - destruct (spaceRune3_cont _ _ _ y2 y2 H) as (_ & _ & _ & _ & ? & _). congruence.
      - destruct (spaceRune3_cont _ _ _ y2 y3 H) as (_ & _ & _ & _ & _ & ? & _). congruence. }
    assert (isSpaceRune (String c2 (String c3 (TrimRightSpace s))) = false) as ->.
    { apply isSpaceRune_width0. simpl.
      destruct (spaceRune3_cont _ _ _ c3 c3 H) as (-> & -> & _).
      destruct (TrimRightSpace s) as [|y ?]; [reflexivity|].
      destruct (spaceRune3_cont _ _ _ c3 y H) as (_ & _ & -> & _). reflexivity. }
    destruct (isSpaceRune _) eqn:E.
    + apply isSpaceRune_rune3 in E as ->; auto.
    + apply TrimLeftSpace_rune3; auto.
Qed.

(** * TrimSpace *)

Lemma TrimSpace_TrimLeftSpace s : TrimSpace (TrimLeftSpace s) = TrimSpace s.
Proof. unfold TrimSpace. rewrite TrimLeftSpace_idem. reflexivity. Qed.

Lemma TrimSpace_TrimRightSpace s : TrimSpace (TrimRightSpace s) = TrimSpace s.
Proof.
  unfold TrimSpace.
  rewrite TrimLeftSpace_TrimRightSpace, TrimRightSpace_idem. reflexivity.
Qed.

Lemma TrimSpace_idem s : TrimSpace (TrimSpace s) = TrimSpace s.
Proof.
  unfold TrimSpace at 2. rewrite TrimSpace_TrimRightSpace, TrimSpace_TrimLeftSpace.
  reflexivity.
Qed.

(** * Cut, Split and occurrences of a byte *)

Lemma hasByte_app c a b : hasByte c (a +:+ b) = hasByte c a || hasByte c b.
Proof.
  induction a as [|x t IH]; [reflexivity|].
  rewrite sapp_cons. simpl. rewrite IH, orb_assoc. reflexivity.
Qed.

Lemma hasByte_cons c x t : hasByte c (String x t) = Ascii.eqb x c || hasByte c t.
Proof. reflexivity. Qed.

Lemma hasByte_app_false c a b :
  hasByte c (a +:+ b) = false <-> hasByte c a = false /\ hasByte c b = false.
Proof. rewrite hasByte_app. apply orb_false_iff. Qed.

Lemma Cut_app sep a b :
  hasByte sep a = false -> Cut (a +:+ String sep b) sep = Some (a, b).
Proof.
  induction a as [|x t IH]; intros H.
  - rewrite sapp_nil_l. simpl. rewrite Ascii.eqb_refl. reflexivity.
  - rewrite sapp_cons. simpl in *. apply orb_false_iff in H as [-> H].
    rewrite IH by auto. reflexivity.
Qed.

Lemma Cut_None s sep : hasByte sep s = false -> Cut s sep = None.
Proof.
  induction s as [|x t IH]; [reflexivity|]. simpl.
  intros [-> H]%orb_false_iff. rewrite IH by auto. reflexivity.
Qed.

Lemma Cut_Some s sep a b :
  Cut s sep = Some (a, b) -> s = a +:+ String sep b /\ hasByte sep a = false.
Proof.
  revert a. induction s as [|x t IH]; intros a; simpl; [discriminate|].
  destruct (Ascii.eqb x sep) eqn:E.
  - apply Ascii.eqb_eq in E as ->. intros [= <- <-]. auto.
  - destruct (Cut t sep) as [[a' b']|]; [|discriminate].
    intros [= <- <-]. destruct (IH _ eq_refl) as [-> H].
    rewrite sapp_cons. simpl. rewrite E. auto.
Qed.

Lemma Cut_None_inv s sep : Cut s sep = None -> hasByte sep s = false.
Proof.
  induction s as [|x t IH]; [reflexivity|]. simpl.
  destruct (Ascii.eqb x sep); [discriminate|].
  destruct (Cut t sep) as [[? ?]|]; [discriminate|]. auto.
Qed.

Lemma Split_app a sep b :
  hasByte sep a = false -> Split (a +:+ String sep b) sep = a :: Split b sep.
Proof.
  induction a as [|x t IH]; intros H.
  - rewrite sapp_nil_l. simpl. rewrite Ascii.eqb_refl. reflexivity.
  - rewrite sapp_cons. simpl in *. apply orb_false_iff in H as [-> H].
    rewrite IH by auto. reflexivity.
Qed.

Lemma Split_length s sep : (1 <= length (Split s sep))%nat.
Proof.
  induction s as [|x t IH]; simpl; [lia|].
  destruct (Ascii.eqb x sep); simpl; [lia|].
  destruct (Split t sep); simpl in *; lia.
Qed.

Lemma Split_no_sep s sep : hasByte sep s = false -> Split s sep = [s].
Proof.
  induction s as [|x t IH]; [reflexivity|]. simpl.
  intros [-> H]%orb_false_iff. rewrite IH by auto. reflexivity.
Qed.

Lemma Split_Cut s sep :
  Split s sep =
  match Cut s sep with Some (a, b) => a :: Split b sep | None => [s] end.
Proof.
  destruct (Cut s sep) as [[a b]|] eqn:E.
  - apply Cut_Some in E as [-> H]. apply Split_app, H.
  - apply Split_no_sep, Cut_None_inv, E.
Qed.

(** A string with at least 3 tokens is its first token, a space, its
    second token, a space, and the rest. *)
Lemma Split_at_least_three s sep :
  (3 <= length (Split s sep))%nat ->
  exists t1 t2 tail,
    s = t1 +:+ String sep (t2 +:+ String sep tail) /\
    hasByte sep t1 = false /\ hasByte sep t2 = false /\
    Split s sep = t1 :: t2 :: Split tail sep.
Proof.
  rewrite (Split_Cut s).
  destruct (Cut s sep) as [[t1 b]|] eqn:E1; [|simpl; lia].
  rewrite (Split_Cut b).
  destruct (Cut b sep) as [[t2 tail]|] eqn:E2; [|simpl; lia].
  intros _. apply Cut_Some in E1 as [-> H1]. apply Cut_Some in E2 as [-> H2].
  exists t1, t2, tail. auto.
Qed.

Lemma SplitN_2 s sep :
  SplitN s sep 2 =
  match Cut s sep with Some (a, b) => [a; b] | None => [s] end.
Proof. simpl. destruct (Cut s sep) as [[a b]|]; reflexivity. Qed.

(** * Trimming lines *)

Lemma low_LF : low LF = true. Proof. reflexivity. Qed.
Lemma plain_COLON : plain COLON = true. Proof. reflexivity. Qed.

(** The line terminator does not matter to [TrimSpace]. *)
Lemma TrimSpace_app_LF l : TrimSpace (l +:+ String LF "") = TrimSpace l.
Proof.
  unfold TrimSpace. rewrite TrimLeftSpace_app_low by apply low_LF.
  destruct (decide _) as [->|]; [reflexivity|].
  apply TrimRightSpace_app_blank. reflexivity.
Qed.

(** A line [name:value] trimmed: the white space goes before the name and
    after the value. *)
Lemma TrimSpace_header name value :
  TrimSpace (name +:+ String COLON value) =
  TrimLeftSpace name +:+ String COLON (TrimRightSpace value).
Proof.
  unfold TrimSpace.
  rewrite TrimLeftSpace_app_plain, TrimRightSpace_app_plain by apply plain_COLON.
  reflexivity.
Qed.

Lemma hasByte_TrimLeftSpace c s :
  hasByte c s = false -> hasByte c (TrimLeftSpace s) = false.
Proof.
  destruct (TrimLeftSpace_suffix s) as [w Hw]. rewrite Hw at 1.
  intros [_ H]%hasByte_app_false. exact H.
Qed.

Lemma hasByte_TrimRightSpace c s :
  hasByte c s = false -> hasByte c (TrimRightSpace s) = false.
Proof.
  destruct (TrimRightSpace_prefix s) as [w Hw]. rewrite Hw at 1.
  intros [H _]%hasByte_app_false. exact H.
Qed.

Lemma hasByte_TrimSpace c s : hasByte c s = false -> hasByte c (TrimSpace s) = false.
Proof. intros H. apply hasByte_TrimRightSpace, hasByte_TrimLeftSpace, H. Qed.

(** Splitting at the first colon and trimming both parts gives the same
    name and value whether or not the line was trimmed first. *)
Lemma Cut_TrimSpace l :
  match Cut l COLON with
  | Some (name, value) =>
      exists k v, Cut (TrimSpace l) COLON = Some (k, v) /\
        TrimSpace k = TrimSpace name /\ TrimSpace v = TrimSpace value
  | None => Cut (TrimSpace l) COLON = None
  end.
Proof.
  destruct (Cut l COLON) as [[name value]|] eqn:E.
  - apply Cut_Some in E as [-> Hn]. rewrite TrimSpace_header.
    eexists _, _. split; [apply Cut_app|split].
    + apply hasByte_TrimLeftSpace, Hn.
    + apply TrimSpace_TrimLeftSpace.
    + apply TrimSpace_TrimRightSpace.
  - apply Cut_None, hasByte_TrimSpace, Cut_None_inv, E.
Qed.

(** * Reading lines *)

Lemma ReadString_line l rest e :
  isLine l ->
  ReadString LF (mkBufReader (l +:+ String LF rest) e) =
  ((l +:+ String LF "", None), mkBufReader rest e).
Proof.
  intros H. unfold ReadString. simpl. rewrite Cut_app by exact H.
  reflexivity.
Qed.

Lemma ReadString_end s e :
  isLine s ->
  ReadString LF (mkBufReader s e) = ((s, Some e), mkBufReader "" e).
Proof. intros H. unfold ReadString. simpl. rewrite Cut_None by exact H. reflexivity. Qed.

(** One turn of the header loop on a complete line. *)
Lemma readHeaders_line l rest e h :
  isLine l ->
  readHeaders (mkBufReader (l +:+ String LF rest) e) h =
  if decide (TrimSpace l = "") then (inl h, mkBufReader rest e)
  else readHeaders (mkBufReader rest e) (spec_header_line h l).
Proof.
  intros Hl. rewrite readHeaders_eq, ReadString_line by exact Hl.
  cbv zeta. rewrite TrimSpace_app_LF.
  destruct (decide _); [reflexivity|].
  rewrite SplitN_2. unfold spec_header_line.
  pose proof (Cut_TrimSpace l) as H.
  destruct (Cut l COLON) as [[name value]|].
  - destruct H as (k & v & -> & -> & ->). reflexivity.
  - rewrite H. reflexivity.
Qed.

Lemma wire_app ls1 ls2 : wire (ls1 ++ ls2) = wire ls1 +:+ wire ls2.
Proof.
  induction ls1 as [|l ls IH]; [reflexivity|].
  simpl. rewrite IH, sapp_assoc, sapp_cons. reflexivity.
Qed.

(** The header loop on a whole block ended by a blank line. *)
Lemma readHeaders_block block term rest e h :
  Forall (fun l => isLine l /\ ~ isBlank l) block ->
  isLine term -> isBlank term ->
  readHeaders (mkBufReader (wire (block ++ [term]) +:+ rest) e) h =
  (inl (foldl spec_header_line h block), mkBufReader rest e).
Proof.
  intros Hb Ht Hblank. revert h.
  induction Hb as [|l ls [Hl Hnb] _ IH]; intros h; simpl.
  - rewrite sapp_assoc, sapp_cons, sapp_nil_l.
    rewrite readHeaders_line by exact Ht.
    destruct (decide _); [reflexivity|done].
  - rewrite sapp_assoc, sapp_cons.
    rewrite readHeaders_line by exact Hl.
    destruct (decide _); [done|]. apply IH.
Qed.

(** * parseRequest *)

Section Parser.
Context {NetConn : Type}.
Implicit Types (reader : addr) (conn : NetConn) (e : error).

(** The request line stage: on a complete first line, either the malformed
    line error or the header loop on what follows. *)
Lemma parseRequest_line reader conn l rest e :
  isLine l ->
  parseRequest reader conn (mkBufReader (l +:+ String LF rest) e) =
  let parts := Split (TrimSpace l) SP in
  if (length parts <? 3)%nat
  then (inr (Errorf "malformed request line"), mkBufReader rest e)
  else match readHeaders (mkBufReader rest e) ∅ with
       | (inr err, r2) => (inr err, r2)
       | (inl headers, r2) =>
           (inl (mkRequest (nth 0 parts "") (nth 1 parts "") headers conn reader), r2)
       end.
Proof.
  intros Hl. unfold parseRequest. rewrite ReadString_line by exact Hl.
  cbv zeta. rewrite TrimSpace_app_LF. reflexivity.
Qed.

Lemma Split_three method uri tail :
  hasByte SP method = false -> hasByte SP uri = false ->
  exists more,
    Split (method +:+ String SP (uri +:+ String SP tail)) SP
    = method :: uri :: more /\ (1 <= length more)%nat.
Proof.
  intros Hm Hu. exists (Split tail SP).
  rewrite !Split_app by auto. split; [reflexivity|apply Split_length].
Qed.

(** A whole request on the wire: request line, header lines, blank line. *)
Lemma parseRequest_wire reader conn e reqline method uri tail block term rest :
  isLine reqline ->
  TrimSpace reqline = method +:+ String SP (uri +:+ String SP tail) ->
  hasByte SP method = false -> hasByte SP uri = false ->
  Forall (fun l => isLine l /\ ~ isBlank l) block ->
  isLine term -> isBlank term ->
  parseRequest reader conn
    (mkBufReader (wire (reqline :: block ++ [term]) +:+ rest) e)
  = (inl (mkRequest method uri (spec_headers block) conn reader),
     mkBufReader rest e).
Proof.
  intros Hl Ht Hm Hu Hb Hterm Hblank.
  cbn [wire]. rewrite sapp_assoc, sapp_cons.
  rewrite parseRequest_line by exact Hl. cbv zeta.
  rewrite Ht. destruct (Split_three method uri tail Hm Hu) as (more & -> & Hlen).
  replace (length (method :: uri :: more) <? 3)%nat with false
    by (symmetry; apply Nat.ltb_ge; simpl; lia).
  rewrite readHeaders_block by assumption. reflexivity.
Qed.

(** What the header loop consumed when it succeeded. *)
Lemma readHeaders_inv (r r' : BufReader) (h hs : gmap string string) :
  readHeaders r h = (inl hs, r') ->
  exists block term,
    pending r = wire (block ++ [term]) +:+ pending r' /\
    rerr r' = rerr r /\
    Forall (fun l => isLine l /\ ~ isBlank l) block /\
    isLine term /\ isBlank term /\
    hs = foldl spec_header_line h block.
Proof.
  remember (String.length (pending r)) as n eqn:En.
  revert r h En. induction n as [n IH] using lt_wf_ind. intros [s e] h ->.
  simpl. destruct (Cut s LF) as [[l rest]|] eqn:E.
  - apply Cut_Some in E as [-> Hl]. rewrite readHeaders_line by exact Hl.
    destruct (decide _) as [Hb|Hb].
    + intros [= <- <-]. exists [], l. simpl.
      rewrite sapp_assoc, sapp_cons, sapp_nil_l. auto 10.
    + intros H. eapply IH in H as (block & term & Hp & He & HF & Ht & Hbl & ->);
        [| |reflexivity].
      * exists (l :: block), term. simpl in *. rewrite Hp.
        rewrite !sapp_assoc, sapp_cons. split; [reflexivity|].
        repeat split; auto.
      * simpl. rewrite sapp_length. simpl. lia.
  - rewrite readHeaders_eq, ReadString_end by (apply Cut_None_inv, E).
    discriminate.
Qed.

(** What [parseRequest] consumed when it succeeded. *)
Lemma parseRequest_inv reader conn (r r' : BufReader) (req : Request NetConn) :
  parseRequest reader conn r = (inl req, r') ->
  exists reqline block term,
    pending r = wire (reqline :: block ++ [term]) +:+ pending r' /\
    rerr r' = rerr r /\
    isLine reqline /\
    Forall (fun l => isLine l /\ ~ isBlank l) block /\
    isLine term /\ isBlank term /\
    (3 <= length (Split (TrimSpace reqline) SP))%nat /\
    req = mkRequest (nth 0 (Split (TrimSpace reqline) SP) "")
                    (nth 1 (Split (TrimSpace reqline) SP) "")
                    (spec_headers block) conn reader.
Proof.
  destruct r as [s e]. destruct (Cut s LF) as [[l rest]|] eqn:E.
  - apply Cut_Some in E as [-> Hl]. rewrite parseRequest_line by exact Hl.
    cbv zeta. destruct (_ <? _)%nat eqn:Hlen; [discriminate|].
    apply Nat.ltb_ge in Hlen.
    destruct (readHeaders _ _) as [[hs|err] r2] eqn:Hh; [|discriminate].
    intros [= <- <-].
    apply readHeaders_inv in Hh as (block & term & Hp & He & HF & Ht & Hbl & ->).
    exists l, block, term. simpl in *. rewrite Hp, sapp_assoc, sapp_cons.
    auto 10.
  - unfold parseRequest. rewrite ReadString_end by (apply Cut_None_inv, E).
    discriminate.
Qed.

(** * handleConnection *)

Lemma readLoop_eq reader conn (r : BufReader) :
  readLoop reader conn r =
  match parseRequest reader conn r with
  | (inr err, _) => []
  | (inl req, r') => EvEnqueue req :: readLoop reader conn r'
  end.
Proof.
  rewrite readLoop_equation_1. unfold inspect.
  cut (forall x (H : parseRequest reader conn r = x),
    readLoop_unfold_clause_1 NetConn reader conn r (x ↾ H) =
    match x with
    | (inr err, _) => []
    | (inl req, r') => EvEnqueue req :: readLoop reader conn r'
    end).
  { intros H. apply H. }
  intros [[req|err] r'] H; simpl; [reflexivity|].
  destruct (decide _); reflexivity.
Qed.

(** The connection reader sends requests, then closes the connection, and
    does nothing else. *)
Lemma handleConnection_trace {Σ : Type} (s : Server NetConn Σ) conn reader incoming e :
  exists reqs,
    handleConnection s conn reader incoming e = map EvEnqueue reqs ++ [EvClose conn].
Proof.
  unfold handleConnection. generalize (bufio_NewReader incoming e). intros r.
  remember (String.length (pending r)) as n eqn:En.
  revert r En. induction n as [n IH] using lt_wf_ind. intros r ->.
  rewrite readLoop_eq.
  destruct (parseRequest reader conn r) as [[req|err] r'] eqn:E.
  - apply parseRequest_length in E.
    destruct (IH _ E r' eq_refl) as [reqs Hr].
    exists (req :: reqs). simpl. rewrite Hr. reflexivity.
  - exists []. reflexivity.
Qed.

(** The connection reader never writes to the log. *)
Lemma handleConnection_logs_nothing {Σ : Type} (s : Server NetConn Σ) conn reader
  incoming e (msg : string) :
  EvLog msg ∉ handleConnection s conn reader incoming e.
Proof.
  destruct (handleConnection_trace s conn reader incoming e) as [reqs ->].
  intros [H|H]%elem_of_app.
  - apply list_elem_of_fmap in H as (req & Heq & _). discriminate.
  - apply list_elem_of_singleton in H. discriminate.
Qed.

(** A first line with fewer than 3 tokens: the parser fails, the loop of the
    connection reader ends at once. *)
Lemma parseRequest_malformed reader conn e (l rest : string) :
  isLine l ->
  (length (Split (TrimSpace l) SP) < 3)%nat ->
  parseRequest reader conn (mkBufReader (l +:+ String LF rest) e)
  = (inr (Errorf "malformed request line"), mkBufReader rest e).
Proof.
  intros Hl Hn. rewrite parseRequest_line by exact Hl. cbv zeta.
  apply Nat.ltb_lt in Hn. rewrite Hn. reflexivity.
Qed.

Lemma handleConnection_first_error {Σ : Type} (s : Server NetConn Σ) conn reader
  incoming e err r' :
  parseRequest reader conn (bufio_NewReader incoming e) = (inr err, r') ->
  handleConnection s conn reader incoming e = [EvClose conn].
Proof.
  intros Hp. unfold handleConnection. rewrite readLoop_eq, Hp. reflexivity.
Qed.

End Parser.

(** * Header lines [name:value] *)

Lemma header_line_isLine name value :
  isLine name -> isLine value -> isLine (header_line (name, value)).
Proof.
  unfold isLine, header_line. simpl. intros Hn Hv.
  rewrite hasByte_app, hasByte_cons, Hn, Hv. reflexivity.
Qed.

Lemma header_line_not_blank name value : ~ isBlank (header_line (name, value)).
Proof.
  unfold isBlank, header_line. simpl. rewrite TrimSpace_header.
  destruct (TrimLeftSpace name); discriminate.
Qed.

Lemma spec_header_line_pair h name value :
  hasByte COLON name = false ->
  spec_header_line h (header_line (name, value))
  = <[TrimSpace name := TrimSpace value]> h.
Proof.
  intros Hn. unfold spec_header_line, header_line. simpl.
  rewrite Cut_app by exact Hn. reflexivity.
Qed.

Lemma spec_header_line_no_colon h l :
  hasByte COLON l = false -> spec_header_line h l = h.
Proof. intros H. unfold spec_header_line. rewrite Cut_None by exact H. reflexivity. Qed.

(** Last write wins. *)
Lemma foldl_spec_header_line_keep (post : list (string * string)) h k :
  Forall (fun nv => hasByte COLON nv.1 = false /\ TrimSpace nv.1 <> k) post ->
  foldl spec_header_line h (map header_line post) !! k = h !! k.
Proof.
  intros H. revert h. induction H as [|[n v] post [Hc Hne] _ IH]; intros h;
    [reflexivity|].
  simpl. rewrite IH, spec_header_line_pair by exact Hc.
  apply lookup_insert_ne. exact Hne.
Qed.

(** * The job queue *)

(** Sends go through, in order and without loss, as long as the buffer has
    room. *)
Lemma pool_enqueue_all_fits {NetConn : Type} (C : nat)
  (ws : list (option (Request NetConn))) (done todo : list (Request NetConn)) :
  (length done + length todo <= C)%nat ->
  pool_enqueue_all todo (mkPool (mkChan C done) ws)
  = Some (mkPool (mkChan C (done ++ todo)) ws).
Proof.
  revert done. induction todo as [|x todo IH]; intros done Hlen; simpl.
  - rewrite app_nil_r. reflexivity.
  - simpl in Hlen. unfold pool_enqueue, chan_send. simpl.
    replace (length done <? C)%nat with true by (symmetry; apply Nat.ltb_lt; lia).
    rewrite IH by (rewrite length_app; simpl; lia).
    rewrite <- app_assoc. reflexivity.
Qed.

(** A send on a full buffer has to wait, whatever the workers do. *)
Lemma pool_enqueue_full {NetConn : Type} (C : nat)
  (ws : list (option (Request NetConn))) (buf : list (Request NetConn))
  (req : Request NetConn) :
  (C <= length buf)%nat ->
  pool_enqueue req (mkPool (mkChan C buf) ws) = None.
Proof.
  intros H. unfold pool_enqueue, chan_send. simpl.
  replace (length buf <? C)%nat with false by (symmetry; apply Nat.ltb_ge; lia).
  reflexivity.
Qed.

Section Claims.
Context {NetConn : Type}.
Implicit Types (reader : addr) (conn : NetConn) (e : error).

(** C1. A well-formed request (a request line that, trimmed, is
    [method SP uri SP tail], then header lines [name:value], then a blank
    line) parses to a request whose method and URI are the first two
    tokens and whose header map sends each trimmed name to the trimmed
    value of its last occurrence, and holds no other name. *)
Theorem parseRequest_round_trip reader conn e
  (reqline method uri tail : string) (hdrs : list (string * string))
  (term rest : string) :
  isLine reqline ->
  TrimSpace reqline = method +:+ String SP (uri +:+ String SP tail) ->
  hasByte SP method = false -> hasByte SP uri = false ->
  Forall (fun nv => isLine nv.1 /\ hasByte COLON nv.1 = false /\ isLine nv.2) hdrs ->
  isLine term -> isBlank term ->
  exists req,
    parseRequest reader conn
      (mkBufReader (wire (reqline :: map header_line hdrs ++ [term]) +:+ rest) e)
    = (inl req, mkBufReader rest e) /\
    Method req = method /\ URI req = uri /\
    (forall pre name value post,
        hdrs = pre ++ (name, value) :: post ->
        Forall (fun nv => TrimSpace nv.1 <> TrimSpace name) post ->
        Headers req !! TrimSpace name = Some (TrimSpace value)) /\
    (forall k, Forall (fun nv => TrimSpace nv.1 <> k) hdrs -> Headers req !! k = None).
Proof.
  intros Hl Ht Hm Hu Hh Hterm Hblank.
  assert (Forall (fun l => isLine l /\ ~ isBlank l) (map header_line hdrs)) as Hb.
  { apply Forall_map. eapply Forall_impl; [exact Hh|].
    intros [n v] (Hn & _ & Hv). split.
    - apply header_line_isLine; assumption.
    - apply header_line_not_blank. }
  eexists. split;
    [apply (parseRequest_wire reader conn e reqline method uri tail); assumption|].
  simpl. split; [reflexivity|]. split; [reflexivity|]. split.
  - intros pre name value post -> Hpost.
    apply Forall_app in Hh as [_ Hh]. apply Forall_cons in Hh as [(_ & Hc & _) Hh].
    unfold spec_headers. rewrite map_app, foldl_app. simpl.
    rewrite foldl_spec_header_line_keep.
    + rewrite spec_header_line_pair by exact Hc. apply lookup_insert_eq.
    + apply Forall_and. split; [|exact Hpost].
      eapply Forall_impl; [exact Hh|]. intros ? (_ & ? & _). assumption.
  - intros k Hk. unfold spec_headers.
    rewrite foldl_spec_header_line_keep; [apply lookup_empty|].
    apply Forall_and. split; [|exact Hk].
    eapply Forall_impl; [exact Hh|]. intros ? (_ & ? & _). assumption.
Qed.

(** C2. When the first line, trimmed and split on single spaces, has fewer
    than 3 tokens, [parseRequest] fails with the malformed request line
    error, and the connection reader closes the connection without having
    sent anything on the job queue. *)
Theorem malformed_request_line {Σ : Type} (s : Server NetConn Σ) reader conn e
  (l rest : string) :
  isLine l ->
  (length (Split (TrimSpace l) SP) < 3)%nat ->
  parseRequest reader conn (mkBufReader (l +:+ String LF rest) e)
  = (inr (Errorf "malformed request line"), mkBufReader rest e) /\
  handleConnection s conn reader (l +:+ String LF rest) e = [EvClose conn].
Proof.
  intros Hl Hn.
  pose proof (parseRequest_malformed reader conn e l rest Hl Hn) as Hp.
  split; [exact Hp|].
  eapply handleConnection_first_error. exact Hp.
Qed.

(** C4. In a header block, a line without a colon is skipped: the request
    parses, and its headers are those of the other lines, each split at its
    first colon with both parts trimmed. *)
Theorem header_without_colon_skipped reader conn e
  (reqline method uri tail : string) (before after : list string)
  (bad term rest : string) :
  isLine reqline ->
  TrimSpace reqline = method +:+ String SP (uri +:+ String SP tail) ->
  hasByte SP method = false -> hasByte SP uri = false ->
  Forall (fun l => isLine l /\ ~ isBlank l) (before ++ after) ->
  isLine bad -> ~ isBlank bad -> hasByte COLON bad = false ->
  isLine term -> isBlank term ->
  parseRequest reader conn
    (mkBufReader (wire (reqline :: (before ++ bad :: after) ++ [term]) +:+ rest) e)
  = (inl (mkRequest method uri (spec_headers (before ++ after)) conn reader),
     mkBufReader rest e) /\
  parseRequest reader conn
    (mkBufReader (wire (reqline :: (before ++ bad :: after) ++ [term]) +:+ rest) e)
  = parseRequest reader conn
      (mkBufReader (wire (reqline :: (before ++ after) ++ [term]) +:+ rest) e).
Proof.
  intros Hl Ht Hm Hu Hb Hbad Hnb Hc Hterm Hblank.
  assert (spec_headers (before ++ bad :: after) = spec_headers (before ++ after)) as Hs.
  { unfold spec_headers. rewrite !foldl_app. simpl.
    rewrite spec_header_line_no_colon by exact Hc. reflexivity. }
  assert (Forall (fun l => isLine l /\ ~ isBlank l) (before ++ bad :: after)) as Hb'.
  { apply Forall_app in Hb as [H1 H2]. apply Forall_app. split; [exact H1|].
    apply Forall_cons. auto. }
  rewrite !(parseRequest_wire reader conn e reqline method uri tail) by assumption.
  rewrite Hs. split; reflexivity.
Qed.

(** C5. When [parseRequest] succeeds, what it took from the reader is the
    request line, the header lines and the first blank line, and nothing
    more: the bytes that follow are what the reader, to which the request
    points, still holds. *)
Theorem parseRequest_consumes reader conn (r r' : BufReader) (req : Request NetConn) :
  parseRequest reader conn r = (inl req, r') ->
  exists reqline block term,
    pending r = wire (reqline :: block ++ [term]) +:+ pending r' /\
    isLine reqline /\
    Forall (fun l => isLine l /\ ~ isBlank l) block /\
    isLine term /\ isBlank term /\
    rerr r' = rerr r /\
    Reader req = reader.
Proof.
  intros H.
  apply parseRequest_inv in H
    as (reqline & block & term & Hp & He & Hl & Hb & Ht & Hbl & _ & ->).
  exists reqline, block, term. auto 10.
Qed.

(** C6. On the input [BAD CRLF CRLF] the parser fails with an error that is
    not [io.EOF], and the connection reader closes the connection without
    logging anything. *)
Theorem handleConnection_error_not_logged {Σ : Type} (s : Server NetConn Σ)
  reader conn :
  parseRequest reader conn (bufio_NewReader ("BAD" +:+ CRLF +:+ CRLF) io_EOF)
  = (inr (Errorf "malformed request line"), mkBufReader CRLF io_EOF) /\
  Errorf "malformed request line" <> io_EOF /\
  handleConnection s conn reader ("BAD" +:+ CRLF +:+ CRLF) io_EOF = [EvClose conn].
Proof.
  assert (parseRequest reader conn (bufio_NewReader ("BAD" +:+ CRLF +:+ CRLF) io_EOF)
          = (inr (Errorf "malformed request line"), mkBufReader CRLF io_EOF)) as Hp.
  { apply (parseRequest_malformed reader conn io_EOF ("BAD" +:+ String CR "") CRLF).
    - reflexivity.
    - vm_compute. lia. }
  split; [exact Hp|]. split; [discriminate|].
  eapply handleConnection_first_error. exact Hp.
Qed.

(** C7. When [net.Listen] fails, [Start] returns that error, leaves the
    server as it was, starts no worker and accepts no connection. *)
Theorem Start_listen_failure {Σ : Type} (s : Server NetConn Σ) (err : error)
  (outcomes : list (AcceptOutcome NetConn)) :
  Start s (mkNetEnv (Some err) outcomes) = (StartReturned err, s, []).
Proof. reflexivity. Qed.

(** C8. [ResponseWriter.Write] is the connection's write: same bytes, same
    count and error, same effect on the network, nothing kept. *)
Theorem Write_is_conn_Write {Σ : Type} `{!ConnWrite NetConn Σ}
  (w : ResponseWriter.t NetConn) (data : list Byte.byte) (σ : Σ) :
  ResponseWriter.Write w data σ = conn_Write (ResponseWriter.Conn w) data σ.
Proof. reflexivity. Qed.

(** C9. [NewServer] accepts every worker count, negative ones and zero
    included, and returns a server whose job queue is empty and has
    capacity 100. *)
Theorem NewServer_no_validation {Σ : Type} (addr : string)
  (handler : HandlerFunc NetConn Σ) (n : Z) :
  NewServer addr handler n
  = mkServer addr handler n (mkChan 100 []) None 0%Z /\
  workerCount (NewServer addr handler n) = n /\
  chan_cap (jobQueue (NewServer addr handler n)) = 100%nat.
Proof. repeat split. Qed.

(** C10. Two spaces after the method make an empty second token: it counts
    towards the three tokens, the request is accepted with an empty URI,
    and what follows the second token plays no part in the result. *)
Theorem empty_token_accepted reader conn e
  (reqline method tail : string) (block : list string) (term rest : string) :
  isLine reqline ->
  TrimSpace reqline = method +:+ String SP (String SP tail) ->
  hasByte SP method = false ->
  Forall (fun l => isLine l /\ ~ isBlank l) block ->
  isLine term -> isBlank term ->
  (3 <= length (Split (TrimSpace reqline) SP))%nat /\
  nth 1 (Split (TrimSpace reqline) SP) "" = "" /\
  parseRequest reader conn
    (mkBufReader (wire (reqline :: block ++ [term]) +:+ rest) e)
  = (inl (mkRequest method "" (spec_headers block) conn reader),
     mkBufReader rest e).
Proof.
  intros Hl Ht Hm Hb Hterm Hblank.
  destruct (Split_three method "" tail Hm eq_refl) as (more & Hs & Hlen).
  rewrite sapp_nil_l in Hs. rewrite Ht, Hs. simpl.
  split; [lia|]. split; [reflexivity|].
  apply (parseRequest_wire reader conn e reqline method "" tail); auto.
Qed.

(** C3. With a job queue [q] of capacity [C], empty, and a single worker
    that is inside a handler which does not return: [C] requests are
    enqueued one after the other without any sender waiting, and none is
    dropped; one more sender has to wait, and so it does as long as the
    handler has not returned and the worker has not taken the next request;
    once that has happened the queue is one shorter and the send goes
    through. *)
Theorem backpressure (q : chan (Request NetConn)) (r0 extra : Request NetConn)
  (reqs : list (Request NetConn)) :
  chan_buf q = [] ->
  length reqs = chan_cap q ->
  let C := chan_cap q in
  let full := mkPool (mkChan C reqs) [Some r0] in
  pool_enqueue_all reqs (mkPool q [Some r0]) = Some full /\
  pool_enqueue extra full = None /\
  pool_dequeue 0 full = None /\
  pool_return 0 full = Some (mkPool (mkChan C reqs) [None]) /\
  pool_enqueue extra (mkPool (mkChan C reqs) [None]) = None /\
  (forall first others, reqs = first :: others ->
     pool_dequeue 0 (mkPool (mkChan C reqs) [None])
       = Some (mkPool (mkChan C others) [Some first]) /\
     pool_enqueue extra (mkPool (mkChan C others) [Some first])
       = Some (mkPool (mkChan C (others ++ [extra])) [Some first])).
Proof.
  destruct q as [C buf]. simpl. intros -> HC.
  split; [apply (pool_enqueue_all_fits C [Some r0] [] reqs); simpl; lia|].
  split; [apply pool_enqueue_full; lia|].
  split; [reflexivity|]. split; [reflexivity|].
  split; [apply pool_enqueue_full; lia|].
  intros first others ->. split; [reflexivity|].
  unfold pool_enqueue, chan_send. simpl in *.
  replace (length others <? C)%nat with true by (symmetry; apply Nat.ltb_lt; lia).
  reflexivity.
Qed.

End Claims.

(** * The theorems at concrete inputs *)

Lemma parseRequest_round_trip_witness :
  exists req,
    parseRequest 1%nat tt
      (mkBufReader
         (wire (demo_request_line :: map header_line demo_headers ++ [String CR ""])
          +:+ "body") io_EOF)
    = (inl req, mkBufReader "body" io_EOF) /\
    Method req = "GET" /\ URI req = "/hello" /\
    (forall pre name value post,
        demo_headers = pre ++ (name, value) :: post ->
        Forall (fun nv => TrimSpace nv.1 <> TrimSpace name) post ->
        Headers req !! TrimSpace name = Some (TrimSpace value)) /\
    (forall k, Forall (fun nv => TrimSpace nv.1 <> k) demo_headers ->
        Headers req !! k = None).
Proof.
  apply (parseRequest_round_trip 1%nat tt io_EOF demo_request_line
           "GET" "/hello" "HTTP/1.1" demo_headers (String CR "") "body").
  - reflexivity.
  - vm_compute. reflexivity.
  - reflexivity.
  - reflexivity.
  - repeat constructor.
  - reflexivity.
  - vm_compute. reflexivity.
Defined.

Lemma malformed_request_line_witness :
  parseRequest 1%nat tt (mkBufReader (("BAD" +:+ String CR "") +:+ String LF CRLF) io_EOF)
  = (inr (Errorf "malformed request line"), mkBufReader CRLF io_EOF) /\
  handleConnection demo_server tt 1%nat (("BAD" +:+ String CR "") +:+ String LF CRLF) io_EOF
  = [EvClose tt].
Proof.
  apply (malformed_request_line demo_server 1%nat tt io_EOF ("BAD" +:+ String CR "") CRLF).
  - reflexivity.
  - vm_compute. lia.
Defined.

Lemma header_without_colon_skipped_witness :
  parseRequest 1%nat tt
    (mkBufReader
       (wire (demo_request_line ::
                (["Host: example" +:+ String CR ""] ++
                 ("no colon here" +:+ String CR "") ::
                 ["Accept: */*" +:+ String CR ""]) ++ [String CR ""]) +:+ "") io_EOF)
  = (inl (mkRequest "GET" "/hello"
            (spec_headers (["Host: example" +:+ String CR ""] ++
                           ["Accept: */*" +:+ String CR ""])) tt 1%nat),
     mkBufReader "" io_EOF) /\
  parseRequest 1%nat tt
    (mkBufReader
       (wire (demo_request_line ::
                (["Host: example" +:+ String CR ""] ++
                 ("no colon here" +:+ String CR "") ::
                 ["Accept: */*" +:+ String CR ""]) ++ [String CR ""]) +:+ "") io_EOF)
  = parseRequest 1%nat tt
      (mkBufReader
         (wire (demo_request_line ::
                  (["Host: example" +:+ String CR ""] ++
                   ["Accept: */*" +:+ String CR ""]) ++ [String CR ""]) +:+ "") io_EOF).
Proof.
  apply (header_without_colon_skipped 1%nat tt io_EOF demo_request_line
           "GET" "/hello" "HTTP/1.1").
  - reflexivity.
  - vm_compute. reflexivity.
  - reflexivity.
  - reflexivity.
  - repeat constructor; vm_compute; discriminate.
  - reflexivity.
  - vm_compute. discriminate.
  - reflexivity.
  - reflexivity.
  - vm_compute. reflexivity.
Defined.

Lemma parseRequest_consumes_witness :
  exists reqline block term,
    pending (mkBufReader demo_stream io_EOF)
    = wire (reqline :: block ++ [term]) +:+ pending (mkBufReader "body" io_EOF) /\
    isLine reqline /\
    Forall (fun l => isLine l /\ ~ isBlank l) block /\
    isLine term /\ isBlank term /\
    rerr (mkBufReader "body" io_EOF) = rerr (mkBufReader demo_stream io_EOF) /\
    Reader (mkRequest "GET" "/" (<["Host" := "a"]> ∅) tt 1%nat) = 1%nat.
Proof.
  apply (parseRequest_consumes 1%nat tt (mkBufReader demo_stream io_EOF)
           (mkBufReader "body" io_EOF)
           (mkRequest "GET" "/" (<["Host" := "a"]> ∅) tt 1%nat)).
  vm_compute. reflexivity.
Defined.

Lemma empty_token_accepted_witness :
  (3 <= length (Split (TrimSpace ("GET  /x HTTP/1.1" +:+ String CR "")) SP))%nat /\
  nth 1 (Split (TrimSpace ("GET  /x HTTP/1.1" +:+ String CR "")) SP) "" = "" /\
  parseRequest 1%nat tt
    (mkBufReader (wire (("GET  /x HTTP/1.1" +:+ String CR "") :: [] ++ [String CR ""])
                  +:+ "") io_EOF)
  = (inl (mkRequest "GET" "" (spec_headers []) tt 1%nat), mkBufReader "" io_EOF).
Proof.
  apply (empty_token_accepted 1%nat tt io_EOF ("GET  /x HTTP/1.1" +:+ String CR "")
           "GET" "/x HTTP/1.1" [] (String CR "") "").
  - reflexivity.
  - vm_compute. reflexivity.
  - reflexivity.
  - constructor.
  - reflexivity.
  - vm_compute. reflexivity.
Defined.

Lemma backpressure_witness :
  let q := jobQueue demo_server in
  let reqs := repeat (demo_request "/queued") 100 in
  let r0 := demo_request "/held" in
  let extra := demo_request "/late" in
  let full := mkPool (mkChan (chan_cap q) reqs) [Some r0] in
  pool_enqueue_all reqs (mkPool q [Some r0]) = Some full /\
  pool_enqueue extra full = None /\
  pool_dequeue 0 full = None /\
  pool_return 0 full = Some (mkPool (mkChan (chan_cap q) reqs) [None]) /\
  pool_enqueue extra (mkPool (mkChan (chan_cap q) reqs) [None]) = None /\
  (forall first others, reqs = first :: others ->
     pool_dequeue 0 (mkPool (mkChan (chan_cap q) reqs) [None])
       = Some (mkPool (mkChan (chan_cap q) others) [Some first]) /\
     pool_enqueue extra (mkPool (mkChan (chan_cap q) others) [Some first])
       = Some (mkPool (mkChan (chan_cap q) (others ++ [extra])) [Some first])).
Proof.
  apply (backpressure (jobQueue demo_server) (demo_request "/held")
           (demo_request "/late") (repeat (demo_request "/queued") 100)).
  - reflexivity.
  - reflexivity.
Defined.

(** * The parser on the requests of the specification *)

Example parse_hello :
  parseRequest 1%nat tt
    (mkBufReader ("GET /hello HTTP/1.1" +:+ CRLF +:+ "Host: example" +:+ CRLF +:+ CRLF)
       io_EOF)
  = (inl (mkRequest "GET" "/hello" (<["Host" := "example"]> ∅) tt 1%nat),
     mkBufReader "" io_EOF).
Proof. vm_compute. reflexivity. Qed.

Example parse_two_spaces :
  parseRequest 1%nat tt
    (mkBufReader ("GET  /x HTTP/1.1" +:+ CRLF +:+ CRLF) io_EOF)
  = (inl (mkRequest "GET" "" ∅ tt 1%nat), mkBufReader "" io_EOF).
Proof. vm_compute. reflexivity. Qed.

Example parse_end_of_stream :
  parseRequest 1%nat tt (mkBufReader "" io_EOF)
  = (inr io_EOF, mkBufReader "" io_EOF).
Proof. vm_compute. reflexivity. Qed.

Example parse_unfinished_headers :
  parseRequest 1%nat tt
    (mkBufReader ("GET / HTTP/1.1" +:+ CRLF +:+ "Host: a" +:+ CRLF) (netError "reset"))
  = (inr (netError "reset"), mkBufReader "" (netError "reset")).
Proof. vm_compute. reflexivity. Qed.

Example trim_unicode_space :
  TrimSpace (String (ascii_of_N 0xC2) (String (ascii_of_N 0xA0)
    ("x" +:+ String (ascii_of_N 0xE3) (String (ascii_of_N 0x80)
       (String (ascii_of_N 0x80) ""))))) = "x".
Proof. vm_compute. reflexivity. Qed.

Example pipelined_requests :
  handleConnection demo_server tt 1%nat
    ("GET /a HTTP/1.1" +:+ CRLF +:+ CRLF +:+ "GET /b HTTP/1.1" +:+ CRLF +:+ CRLF)
    io_EOF
  = [EvEnqueue (demo_request "/a"); EvEnqueue (demo_request "/b"); EvClose tt].
Proof. vm_compute. reflexivity. Qed.

(** * Further properties *)

(** * More on the parser *)

(** When the header loop fails, the stream has ended: the error is the one
    that ended it and nothing is left. *)
Lemma readHeaders_error (r r' : BufReader) (h : gmap string string) (err : error) :
  readHeaders r h = (inr err, r') ->
  err = rerr r /\ pending r' = "" /\ rerr r' = rerr r.
Proof.
  remember (String.length (pending r)) as n eqn:En.
  revert r h En. induction n as [n IH] using lt_wf_ind. intros [s e] h ->.
  simpl. destruct (Cut s LF) as [[l rest]|] eqn:E.
  - apply Cut_Some in E as [-> Hl]. rewrite readHeaders_line by exact Hl.
    destruct (decide _); [discriminate|].
    intros H. eapply IH in H; [exact H| |reflexivity].
    simpl. rewrite sapp_length. simpl. lia.
  - rewrite readHeaders_eq, ReadString_end by (apply Cut_None_inv, E).
    intros [= <- <-]. auto.
Qed.

(** The header loop on lines none of which is blank, when the stream ends
    before a blank line: the error that ends the stream. *)
Lemma readHeaders_truncated block partial e h :
  Forall (fun l => isLine l /\ ~ isBlank l) block ->
  isLine partial ->
  readHeaders (mkBufReader (wire block +:+ partial) e) h
  = (inr e, mkBufReader "" e).
Proof.
  intros Hb Hp. revert h. induction Hb as [|l ls [Hl Hnb] _ IH]; intros h; simpl.
  - rewrite sapp_nil_l, readHeaders_eq, ReadString_end by exact Hp. reflexivity.
  - rewrite sapp_assoc, sapp_cons.
    rewrite readHeaders_line by exact Hl.
    destruct (decide _); [done|]. apply IH.
Qed.

(** A whole request on the wire, by its tokens. *)
Lemma parseRequest_tokens {NetConn : Type} (reader : addr) (conn : NetConn) e
  reqline block term rest :
  isLine reqline ->
  (3 <= length (Split (TrimSpace reqline) SP))%nat ->
  Forall (fun l => isLine l /\ ~ isBlank l) block ->
  isLine term -> isBlank term ->
  parseRequest reader conn
    (mkBufReader (wire (reqline :: block ++ [term]) +:+ rest) e)
  = (inl (mkRequest (nth 0 (Split (TrimSpace reqline) SP) "")
                    (nth 1 (Split (TrimSpace reqline) SP) "")
                    (spec_headers block) conn reader),
     mkBufReader rest e).
Proof.
  intros Hl Hn Hb Hterm Hblank.
  cbn [wire]. rewrite sapp_assoc, sapp_cons.
  rewrite parseRequest_line by exact Hl. cbv zeta.
  replace (length (Split (TrimSpace reqline) SP) <? 3)%nat with false
    by (symmetry; apply Nat.ltb_ge; exact Hn).
  rewrite readHeaders_block by assumption. reflexivity.
Qed.

Lemma spaceWidth_TrimSpace s : spaceWidth (TrimSpace s) = 0%nat.
Proof. apply TrimRightSpace_width0, TrimLeftSpace_width. Qed.

Section ParserExtras.
Context {NetConn : Type}.
Implicit Types (reader : addr) (conn : NetConn) (e : error).

(** X1. An error of [parseRequest] is either the malformed request line
    error, in which case exactly the first line was taken from the reader,
    or the error that ended the stream, in which case nothing is left in
    the reader. *)
Theorem parseRequest_error_cases reader conn (r r' : BufReader) (err : error) :
  parseRequest reader conn r = (inr err, r') ->
  rerr r' = rerr r /\
  ((err = Errorf "malformed request line" /\
    exists l, isLine l /\ pending r = l +:+ String LF (pending r') /\
              (length (Split (TrimSpace l) SP) < 3)%nat)
   \/ (err = rerr r /\ pending r' = "")).
Proof.
  destruct r as [s e]. simpl. destruct (Cut s LF) as [[l rest]|] eqn:E.
  - apply Cut_Some in E as [-> Hl]. rewrite parseRequest_line by exact Hl.
    cbv zeta. destruct (_ <? _)%nat eqn:Hlen.
    + intros [= <- <-]. split; [reflexivity|]. left. split; [reflexivity|].
      exists l. apply Nat.ltb_lt in Hlen. auto.
    + destruct (readHeaders _ _) as [[hs|err'] r2] eqn:Hh; [discriminate|].
      intros [= <- <-]. apply readHeaders_error in Hh as (-> & Hp & He).
      simpl in *. auto.
  - unfold parseRequest. rewrite ReadString_end by (apply Cut_None_inv, E).
    intros [= <- <-]. auto.
Qed.

(** X2. A request whose headers are not ended by a blank line before the
    stream ends is never returned in part: [parseRequest] returns the error
    that ended the stream, and the reader is left empty. *)
Theorem parseRequest_truncated reader conn e
  (reqline : string) (block : list string) (partial : string) :
  isLine reqline ->
  (3 <= length (Split (TrimSpace reqline) SP))%nat ->
  Forall (fun l => isLine l /\ ~ isBlank l) block ->
  isLine partial ->
  parseRequest reader conn (mkBufReader (wire (reqline :: block) +:+ partial) e)
  = (inr e, mkBufReader "" e).
Proof.
  intros Hl Hn Hb Hp.
  cbn [wire]. rewrite sapp_assoc, sapp_cons.
  rewrite parseRequest_line by exact Hl. cbv zeta.
  replace (length (Split (TrimSpace reqline) SP) <? 3)%nat with false
    by (symmetry; apply Nat.ltb_ge; exact Hn).
  rewrite readHeaders_truncated by assumption. reflexivity.
Qed.

(** X3. In a request that [parseRequest] returns, every header name and
    value is free of surrounding white space and of LF, and no name holds a
    colon. *)
Theorem parseRequest_headers_normalized reader conn (r r' : BufReader)
  (req : Request NetConn) (k v : string) :
  parseRequest reader conn r = (inl req, r') ->
  Headers req !! k = Some v ->
  TrimSpace k = k /\ TrimSpace v = v /\
  hasByte COLON k = false /\ hasByte LF k = false /\ hasByte LF v = false.
Proof.
  intros H.
  apply parseRequest_inv in H
    as (reqline & block & term & _ & _ & _ & Hb & _ & _ & _ & ->).
  simpl. unfold spec_headers.
  assert (forall h : gmap string string,
    (forall k v, h !! k = Some v ->
       TrimSpace k = k /\ TrimSpace v = v /\
       hasByte COLON k = false /\ hasByte LF k = false /\ hasByte LF v = false) ->
    forall k v, foldl spec_header_line h block !! k = Some v ->
       TrimSpace k = k /\ TrimSpace v = v /\
       hasByte COLON k = false /\ hasByte LF k = false /\ hasByte LF v = false) as Hinv.
  { induction Hb as [|l ls [Hl _] _ IH]; intros h Hh; [exact Hh|].
    simpl. apply IH. intros k' v'. unfold spec_header_line.
    destruct (Cut l COLON) as [[name value]|] eqn:E; [|apply Hh].
    apply Cut_Some in E as [-> Hc].
    unfold isLine in Hl. apply hasByte_app_false in Hl as [Hn Hv].
    rewrite hasByte_cons in Hv. apply orb_false_iff in Hv as [_ Hv].
    destruct (decide (TrimSpace name = k')) as [<-|Hne].
    - rewrite lookup_insert_eq. intros [= <-].
      rewrite !TrimSpace_idem. repeat split; auto using hasByte_TrimSpace.
    - rewrite lookup_insert_ne by exact Hne. apply Hh. }
  apply Hinv. intros k' v'. rewrite lookup_empty. discriminate.
Qed.

(** X4. In a request that [parseRequest] returns, the method is not empty,
    and neither the method nor the URI holds a space or an LF. *)
Theorem parseRequest_method_uri reader conn (r r' : BufReader)
  (req : Request NetConn) :
  parseRequest reader conn r = (inl req, r') ->
  Method req <> "" /\
  hasByte SP (Method req) = false /\ hasByte LF (Method req) = false /\
  hasByte SP (URI req) = false /\ hasByte LF (URI req) = false.
Proof.
  intros H.
  apply parseRequest_inv in H
    as (reqline & block & term & _ & _ & Hl & _ & _ & _ & Hn & ->).
  simpl.
  pose proof (hasByte_TrimSpace LF reqline Hl) as Hlf.
  pose proof (spaceWidth_TrimSpace reqline) as Hw.
  destruct (Split_at_least_three _ _ Hn) as (t1 & t2 & tail & Ht & H1 & H2 & ->).
  simpl. rewrite Ht in Hlf, Hw.
  apply hasByte_app_false in Hlf as [Hlf1 Hlf].
  rewrite hasByte_cons in Hlf. apply orb_false_iff in Hlf as [_ Hlf].
  apply hasByte_app_false in Hlf as [Hlf2 _].
  repeat split; try assumption.
  intros ->. rewrite sapp_nil_l in Hw. discriminate.
Qed.

End ParserExtras.

(** * More on the connection reader *)

Section ReaderExtras.
Context {NetConn Σ : Type}.
Implicit Types (s : Server NetConn Σ) (reader : addr) (conn : NetConn) (e : error).




End ReaderExtras.

(** * More on Start *)

Section StartExtras.
Context {NetConn Σ : Type}.
Implicit Types (s : Server NetConn Σ) (env : NetEnv NetConn).

Lemma spawnWorkers_ids (n : nat) (i : Z) :
  worker_ids (@spawnWorkers NetConn n i) = map (fun k => (i + Z.of_nat k)%Z) (seq 0 n).
Proof.
  revert i. induction n as [|n IH]; intros i; [reflexivity|].
  unfold worker_ids in *. simpl. rewrite IH.
  rewrite Z.add_0_r. f_equal.
  rewrite <- seq_shift, map_map. apply map_ext. intros k. lia.
Qed.

Lemma spawnWorkers_only (n : nat) (i : Z) :
  served_conns (@spawnWorkers NetConn n i) = [] /\
  nodelay_conns (@spawnWorkers NetConn n i) = [] /\
  logged (@spawnWorkers NetConn n i) = [] /\
  tls_wraps (@spawnWorkers NetConn n i) = [].
Proof.
  revert i. induction n as [|n IH]; intros i; [repeat split; reflexivity|].
  destruct (IH (i + 1)%Z) as (? & ? & ? & ?). repeat split; assumption.
Qed.

Lemma acceptLoop_readings (outcomes : list (AcceptOutcome NetConn)) :
  worker_ids (acceptLoop outcomes) = [] /\
  tls_wraps (acceptLoop outcomes) = [] /\
  served_conns (acceptLoop outcomes) = accepted_conns outcomes /\
  nodelay_conns (acceptLoop outcomes) = accepted_tcp_conns outcomes /\
  logged (acceptLoop outcomes) = accept_logs outcomes.
Proof.
  induction outcomes as [|[err|c [] [err|]] rest (H1 & H2 & H3 & H4 & H5)];
    [auto| | | | |]; cbn [acceptLoop app];
    unfold worker_ids, tls_wraps, served_conns, nodelay_conns, logged,
      accepted_conns, accepted_tcp_conns, accept_logs in *;
    simpl; repeat split; first [assumption | f_equal; assumption].
Qed.

Lemma wrap_readings (cfg : option tls_Config) :
  let wrap : list (StartEvent NetConn) :=
    match cfg with Some c => [SeWrapTLS c] | None => [] end in
  worker_ids wrap = [] /\ served_conns wrap = [] /\ nodelay_conns wrap = [] /\
  logged wrap = [] /\
  tls_wraps wrap = match cfg with Some c => [c] | None => [] end.
Proof. destruct cfg; simpl; auto. Qed.

(** X7. Once listening, [Start] does not return; it starts the workers
    numbered 0, 1, ... up to the worker count (none when the count is zero
    or negative), adds that many to the wait group and changes nothing else
    of the server, and all the workers are started before anything is done
    with a connection. *)
Theorem Start_spawns_workers s env :
  listen_err env = None ->
  let n := Z.to_nat (workerCount s) in
  exists pre,
    Start s env
    = (StartServing,
       mkServer (Addr s) (Handler s) (workerCount s) (jobQueue s) (TLSConfig s)
                (wg s + Z.max 0 (workerCount s))%Z,
       pre ++ acceptLoop (accepts env)) /\
    worker_ids pre = map Z.of_nat (seq 0 n) /\
    served_conns pre = [] /\ nodelay_conns pre = [] /\ logged pre = [] /\
    worker_ids (acceptLoop (accepts env)) = [] /\
    ((workerCount s <= 0)%Z -> worker_ids pre = []).
Proof.
  intros Hl n. unfold Start. rewrite Hl. fold n.
  exists ((match TLSConfig s with Some cfg => [SeWrapTLS cfg] | None => [] end)
          ++ spawnWorkers n 0%Z).
  destruct (wrap_readings (TLSConfig s)) as (W1 & W2 & W3 & W4 & _).
  destruct (spawnWorkers_only n 0%Z) as (S1 & S2 & S3 & _).
  destruct (acceptLoop_readings (accepts env)) as (A1 & _).
  assert (worker_ids
            ((match TLSConfig s with Some cfg => [SeWrapTLS cfg] | None => [] end)
             ++ @spawnWorkers NetConn n 0%Z) = map Z.of_nat (seq 0 n)) as Hids.
  { unfold worker_ids in *. rewrite omap_app, W1.
    apply (spawnWorkers_ids n 0%Z). }
  split; [|split; [exact Hids|]].
  - rewrite <- app_assoc. repeat f_equal. unfold n. lia.
  - unfold served_conns, nodelay_conns, logged in *.
    rewrite !omap_app, W2, W3, W4, S1, S2, S3.
    repeat split; auto.
    intros Hle. rewrite Hids. unfold n.
    replace (Z.to_nat (workerCount s)) with 0%nat by lia. reflexivity.
Qed.

(** X8. Once listening, [Start] hands every accepted connection to one
    connection reader, in the order of acceptance, whatever errors [Accept]
    returned in between; it sets TCP_NODELAY on the TCP connections and on
    no other; and it logs the accept errors and the failures to set
    TCP_NODELAY, and nothing else. *)
Theorem Start_serves_every_connection s env :
  listen_err env = None ->
  served_conns (Start s env).2 = accepted_conns (accepts env) /\
  nodelay_conns (Start s env).2 = accepted_tcp_conns (accepts env) /\
  logged (Start s env).2 = accept_logs (accepts env).
Proof.
  intros Hl. unfold Start. rewrite Hl. cbn [snd].
  destruct (wrap_readings (TLSConfig s)) as (_ & W2 & W3 & W4 & _).
  destruct (spawnWorkers_only (Z.to_nat (workerCount s)) 0%Z) as (S1 & S2 & S3 & _).
  destruct (acceptLoop_readings (accepts env)) as (_ & _ & A3 & A4 & A5).
  unfold served_conns, nodelay_conns, logged in *.
  rewrite !omap_app, W2, W3, W4, S1, S2, S3, A3, A4, A5. auto.
Qed.

(** X9. [SetTLSConfig] with a key pair that loads replaces whatever TLS
    configuration there was by one that holds this certificate alone, and
    [Start] then wraps the listener with it, first of all and once; the
    workers started and the connections served are those of the server
    without it.  With a key pair that does not load the server is left as
    it was. *)
Theorem SetTLSConfig_then_Start s (cert : string) (err : error) env :
  listen_err env = None ->
  SetTLSConfig s (inr err) = (Some err, s) /\
  exists rest,
    (Start (SetTLSConfig s (inl cert)).2 env).2
    = SeWrapTLS (mk_tls_Config [cert]) :: rest /\
    tls_wraps rest = [] /\
    worker_ids rest = worker_ids (Start s env).2 /\
    served_conns rest = served_conns (Start s env).2.
Proof.
  intros Hl. split; [reflexivity|].
  unfold Start. rewrite Hl. cbn [snd SetTLSConfig TLSConfig workerCount].
  eexists. split; [reflexivity|].
  destruct (wrap_readings (TLSConfig s)) as (W1 & W2 & _).
  destruct (spawnWorkers_only (Z.to_nat (workerCount s)) 0%Z) as (_ & _ & _ & S4).
  destruct (acceptLoop_readings (accepts env)) as (_ & A2 & _).
  unfold tls_wraps, worker_ids, served_conns in *.
  rewrite !omap_app, S4, A2, W1, W2. auto.
Qed.

End StartExtras.

(** * More on the job queue *)

Section PoolExtras.
Context {NetConn : Type}.
Implicit Types (p : Pool NetConn) (req : Request NetConn)
  (acts : list (PoolAction NetConn)).

Lemma in_handler_length p : (length (in_handler p) <= length (pool_workers p))%nat.
Proof.
  unfold in_handler. induction (pool_workers p) as [|[r|] ws IH]; simpl.
  - lia.
  - apply le_n_S, IH.
  - apply Nat.le_trans with (length ws); [exact IH|lia].
Qed.

Lemma pool_enqueue_Some req p p' :
  pool_enqueue req p = Some p' ->
  (length (chan_buf (pool_queue p)) < chan_cap (pool_queue p))%nat /\
  p' = mkPool (mkChan (chan_cap (pool_queue p)) (chan_buf (pool_queue p) ++ [req]))
              (pool_workers p).
Proof.
  unfold pool_enqueue, chan_send.
  destruct (_ <? _)%nat eqn:E; [|discriminate].
  intros [= <-]. apply Nat.ltb_lt in E. auto.
Qed.

Lemma pool_dequeue_Some i p p' :
  pool_dequeue i p = Some p' ->
  exists req rest,
    chan_buf (pool_queue p) = req :: rest /\
    pool_workers p !! i = Some None /\
    p' = mkPool (mkChan (chan_cap (pool_queue p)) rest)
                (<[i := Some req]> (pool_workers p)).
Proof.
  unfold pool_dequeue, chan_recv.
  destruct (pool_workers p !! i) as [[r|]|] eqn:E; try discriminate.
  destruct (chan_buf (pool_queue p)) as [|req rest] eqn:Eb; [discriminate|].
  intros [= <-]. eauto.
Qed.

Lemma pool_return_Some i p p' :
  pool_return i p = Some p' ->
  exists req,
    pool_workers p !! i = Some (Some req) /\
    p' = mkPool (pool_queue p) (<[i := None]> (pool_workers p)).
Proof.
  unfold pool_return.
  destruct (pool_workers p !! i) as [[r|]|] eqn:E; try discriminate.
  intros [= <-]. eauto.
Qed.

(** X10. Along every schedule the capacity of the job queue and the number
    of workers stay what they were, the queue never holds more requests
    than its capacity, and no more handlers run than there are workers. *)
Theorem pool_run_bounds acts p p' :
  pool_run acts p = Some p' ->
  (length (chan_buf (pool_queue p)) <= chan_cap (pool_queue p))%nat ->
  chan_cap (pool_queue p') = chan_cap (pool_queue p) /\
  length (pool_workers p') = length (pool_workers p) /\
  (length (chan_buf (pool_queue p')) <= chan_cap (pool_queue p))%nat /\
  (length (in_handler p') <= length (pool_workers p))%nat.
Proof.
  revert p. induction acts as [|act acts IH]; intros p; simpl.
  - intros [= <-] Hc. repeat split; auto.
    apply in_handler_length.
  - destruct (pool_step act p) as [p1|] eqn:E; [|discriminate].
    intros Hrun Hc.
    assert (chan_cap (pool_queue p1) = chan_cap (pool_queue p) /\
            length (pool_workers p1) = length (pool_workers p) /\
            (length (chan_buf (pool_queue p1)) <= chan_cap (pool_queue p))%nat)
      as (H1 & H2 & H3).
    { destruct act as [req|i|i]; simpl in E.
      - apply pool_enqueue_Some in E as [Hlt ->]. simpl.
        rewrite length_app. simpl. repeat split; lia.
      - apply pool_dequeue_Some in E as (req & rest & Hb & _ & ->). simpl.
        rewrite length_insert, Hb in *. simpl in Hc. repeat split; lia.
      - apply pool_return_Some in E as (req & _ & ->). simpl.
        rewrite length_insert. auto. }
    rewrite <- H1, <- H2. apply IH; [exact Hrun|]. rewrite H1. exact H3.
Qed.

(** X11. Along every schedule the requests leave the job queue in the
    order in which they entered it, none is lost and none is taken twice:
    what the queue held at first followed by what was sent is what the
    workers received followed by what the queue still holds. *)
Theorem pool_run_fifo acts p p' :
  pool_run acts p = Some p' ->
  chan_buf (pool_queue p) ++ enqueued acts
  = received acts p ++ chan_buf (pool_queue p').
Proof.
  revert p. induction acts as [|act acts IH]; intros p; simpl.
  - intros [= <-]. rewrite app_nil_r. reflexivity.
  - destruct (pool_step act p) as [p1|] eqn:E; [|discriminate].
    intros Hrun. specialize (IH _ Hrun).
    destruct act as [req|i|i]; simpl in E.
    + apply pool_enqueue_Some in E as [_ ->]. simpl in *.
      unfold enqueued in *. simpl. rewrite <- IH, <- app_assoc.
      destruct (chan_buf (pool_queue p)); reflexivity.
    + apply pool_dequeue_Some in E as (req & rest & Hb & _ & ->). simpl in *.
      rewrite Hb. unfold enqueued in *. simpl. rewrite <- IH. reflexivity.
    + apply pool_return_Some in E as (req & _ & ->). simpl in *.
      unfold enqueued in *. simpl. rewrite <- IH.
      destruct (chan_buf (pool_queue p)); reflexivity.
Qed.

(** X12. Without workers nothing ever leaves the job queue: a schedule is
    made of sends alone, no request reaches a handler, and no more requests
    are sent than the queue had room for at first. *)
Theorem pool_without_workers acts p p' :
  pool_workers p = [] ->
  (length (chan_buf (pool_queue p)) <= chan_cap (pool_queue p))%nat ->
  pool_run acts p = Some p' ->
  acts = map ActEnqueue (enqueued acts) /\
  received acts p = [] /\
  in_handler p' = [] /\
  chan_buf (pool_queue p') = chan_buf (pool_queue p) ++ enqueued acts /\
  (length (enqueued acts)
   <= chan_cap (pool_queue p) - length (chan_buf (pool_queue p)))%nat.
Proof.
  revert p. induction acts as [|act acts IH]; intros p Hw Hc; simpl.
  - intros [= <-]. unfold in_handler. rewrite Hw, app_nil_r.
    repeat split; simpl; lia.
  - destruct (pool_step act p) as [p1|] eqn:E; [|discriminate].
    intros Hrun.
    destruct act as [req|i|i]; simpl in E.
    + apply pool_enqueue_Some in E as [Hlt ->].
      apply IH in Hrun as (Ha & Hr & Hh & Hb & Hn);
        [|exact Hw|simpl; rewrite length_app; simpl; lia].
      simpl in *. rewrite length_app in Hn. simpl in Hn.
      unfold enqueued in *. simpl.
      rewrite <- Ha, Hb, <- app_assoc.
      destruct (chan_buf (pool_queue p)); repeat split; simpl in *; auto; lia.
    + apply pool_dequeue_Some in E as (req & rest & _ & Hi & _).
      rewrite Hw in Hi. discriminate.
    + apply pool_return_Some in E as (req & Hi & _).
      rewrite Hw in Hi. discriminate.
Qed.

End PoolExtras.

(** * The load generator and the server *)











(** * Reading responses *)






(** * The handler of the server program *)



(** * What the parser does not look at *)

(** A header line counts by its trimmed text alone. *)
Lemma spec_header_line_TrimSpace h l l' :
  TrimSpace l = TrimSpace l' -> spec_header_line h l = spec_header_line h l'.
Proof.
  intros Heq. unfold spec_header_line.
  pose proof (Cut_TrimSpace l) as H. pose proof (Cut_TrimSpace l') as H'.
  rewrite <- Heq in H'.
  destruct (Cut l COLON) as [[n v]|], (Cut l' COLON) as [[n' v']|].
  - destruct H as (k & x & Hc & <- & <-). destruct H' as (k' & x' & Hc' & <- & <-).
    rewrite Hc in Hc'. injection Hc' as <- <-. reflexivity.
  - destruct H as (k & x & Hc & _). congruence.
  - destruct H' as (k & x & Hc & _). congruence.
  - reflexivity.
Qed.

Lemma readHeaders_trimmed ls ls' rest e h :
  Forall2 (fun l l' => isLine l /\ isLine l' /\ TrimSpace l = TrimSpace l') ls ls' ->
  (readHeaders (mkBufReader (wire ls +:+ rest) e) h).1
  = (readHeaders (mkBufReader (wire ls' +:+ rest) e) h).1.
Proof.
  intros H. revert h. induction H as [|l l' ls ls' (Hl & Hl' & Heq) _ IH]; intros h.
  - reflexivity.
  - simpl. rewrite !sapp_assoc, !sapp_cons.
    rewrite !readHeaders_line by assumption. rewrite <- Heq.
    destruct (decide _); [reflexivity|].
    rewrite (spec_header_line_TrimSpace h l l' Heq). apply IH.
Qed.

Section ParserFrame.
Context {NetConn : Type}.
Implicit Types (reader : addr) (conn : NetConn) (e : error).

(** X16. White space around a line never matters to [parseRequest], and so
    lines ended by LF and lines ended by CRLF are read alike: two inputs
    whose lines have the same trimmed text, followed by the same bytes, give
    the same request or the same error. *)
Theorem parseRequest_trimmed_lines reader conn e (l l' : string)
  (ls ls' : list string) (rest : string) :
  isLine l -> isLine l' -> TrimSpace l = TrimSpace l' ->
  Forall2 (fun l l' => isLine l /\ isLine l' /\ TrimSpace l = TrimSpace l') ls ls' ->
  (parseRequest reader conn (mkBufReader (wire (l :: ls) +:+ rest) e)).1
  = (parseRequest reader conn (mkBufReader (wire (l' :: ls') +:+ rest) e)).1.
Proof.
  intros Hl Hl' Heq Hls. cbn [wire]. rewrite !sapp_assoc, !sapp_cons.
  rewrite !parseRequest_line by assumption. cbv zeta. rewrite <- Heq.
  destruct (_ <? _)%nat; [reflexivity|].
  pose proof (readHeaders_trimmed ls ls' rest e ∅ Hls) as H.
  destruct (readHeaders (mkBufReader (wire ls +:+ rest) e) ∅) as [[hs|err] r2],
           (readHeaders (mkBufReader (wire ls' +:+ rest) e) ∅) as [[hs'|err'] r2'];
    simpl in *; congruence.
Qed.

(** X17. The order of two neighbouring header lines with different names
    (or one of which has no colon) does not matter to the request. *)
Theorem parseRequest_header_order reader conn e (reqline : string)
  (before after : list string) (l1 l2 term rest : string) :
  isLine reqline ->
  (3 <= length (Split (TrimSpace reqline) SP))%nat ->
  Forall (fun l => isLine l /\ ~ isBlank l) (before ++ l1 :: l2 :: after) ->
  isLine term -> isBlank term ->
  (forall n1 v1 n2 v2,
     Cut l1 COLON = Some (n1, v1) -> Cut l2 COLON = Some (n2, v2) ->
     TrimSpace n1 <> TrimSpace n2) ->
  parseRequest reader conn
    (mkBufReader (wire (reqline :: (before ++ l1 :: l2 :: after) ++ [term]) +:+ rest) e)
  = parseRequest reader conn
    (mkBufReader (wire (reqline :: (before ++ l2 :: l1 :: after) ++ [term]) +:+ rest) e).
Proof.
  intros Hl Hn Hb Hterm Hblank Hne.
  assert (Forall (fun l => isLine l /\ ~ isBlank l) (before ++ l2 :: l1 :: after)) as Hb'.
  { apply Forall_app in Hb as [H1 H2]. apply Forall_app. split; [exact H1|].
    apply Forall_cons in H2 as [Ha H2]. apply Forall_cons in H2 as [Hb2 H2].
    repeat constructor; tauto. }
  assert (spec_headers (before ++ l1 :: l2 :: after)
          = spec_headers (before ++ l2 :: l1 :: after)) as Hs.
  { unfold spec_headers. rewrite !foldl_app. cbn [foldl].
    f_equal. unfold spec_header_line.
    destruct (Cut l1 COLON) as [[n1 v1]|] eqn:E1, (Cut l2 COLON) as [[n2 v2]|] eqn:E2;
      try reflexivity.
    apply insert_insert_ne. apply not_eq_sym. eapply Hne; reflexivity. }
  rewrite !parseRequest_tokens by assumption. rewrite Hs. reflexivity.
Qed.

End ParserFrame.

(** * The URL of the load generator *)

Lemma SplitN_app a sep b n :
  hasByte sep a = false ->
  SplitN (a +:+ String sep b) sep (S (S n)) = a :: SplitN b sep (S n).
Proof. intros H. cbn [SplitN]. rewrite Cut_app by exact H. reflexivity. Qed.

Lemma SplitN_no_sep s sep n :
  hasByte sep s = false -> SplitN s sep (S n) = [s].
Proof.
  intros H. destruct n; [reflexivity|]. cbn [SplitN]. rewrite Cut_None by exact H.
  reflexivity.
Qed.

Lemma substring_all_but_last s c :
  substring 0 (String.length s) (s +:+ String c "") = s.
Proof.
  induction s as [|x t IH]; [reflexivity|].
  rewrite sapp_cons. simpl. rewrite IH. reflexivity.
Qed.

(** X18. The load generator splits its URL at the first three slashes:
    the scheme is what comes before the first slash less its last byte,
    whatever that byte is; what stands between the first and the second
    slash is ignored; the host is what stands between the second and the
    third slash; the path is the rest, with its slash.  A URL with fewer
    than three slashes, as one that ends with the host, is refused, and a
    URL that starts with a slash makes the program panic. *)
Theorem splitURL_parts (scheme mid host rest : string) (c : ascii) :
  hasByte SLASH scheme = false -> Ascii.eqb c SLASH = false ->
  hasByte SLASH mid = false -> hasByte SLASH host = false ->
  splitURL (scheme +:+ String c (String SLASH (mid +:+ String SLASH
              (host +:+ String SLASH rest))))
  = URLParts scheme host (String SLASH rest) /\
  splitURL (scheme +:+ String c (String SLASH (mid +:+ String SLASH host)))
  = URLInvalid /\
  splitURL (String SLASH (mid +:+ String SLASH (host +:+ String SLASH rest)))
  = URLPanic.
Proof.
  intros Hs Hc Hm Hh.
  assert (hasByte SLASH (scheme +:+ String c "") = false) as Hsc.
  { rewrite hasByte_app, Hs. simpl. rewrite Hc. reflexivity. }
  split; [|split].
  - replace (scheme +:+ String c (String SLASH (mid +:+ String SLASH
               (host +:+ String SLASH rest))))
      with ((scheme +:+ String c "") +:+ String SLASH (mid +:+ String SLASH
               (host +:+ String SLASH rest)))
      by (rewrite sapp_assoc; reflexivity).
    unfold splitURL. rewrite !SplitN_app by assumption.
    cbn [SplitN length nth Nat.ltb Nat.leb].
    rewrite sapp_length. cbn [String.length]. rewrite Nat.add_1_r.
    rewrite substring_all_but_last. reflexivity.
  - replace (scheme +:+ String c (String SLASH (mid +:+ String SLASH host)))
      with ((scheme +:+ String c "") +:+ String SLASH (mid +:+ String SLASH host))
      by (rewrite sapp_assoc; reflexivity).
    unfold splitURL. rewrite !SplitN_app by assumption.
    rewrite SplitN_no_sep by exact Hh. reflexivity.
  - replace (String SLASH (mid +:+ String SLASH (host +:+ String SLASH rest)))
      with ("" +:+ String SLASH (mid +:+ String SLASH (host +:+ String SLASH rest)))
      by reflexivity.
    unfold splitURL. rewrite (SplitN_app "") by reflexivity.
    rewrite !SplitN_app by assumption. reflexivity.
Qed.

(** * The further theorems at concrete inputs *)

Lemma parseRequest_error_cases_witness :
  rerr (mkBufReader CRLF io_EOF) = rerr (mkBufReader ("BAD" +:+ CRLF +:+ CRLF) io_EOF) /\
  ((Errorf "malformed request line" = Errorf "malformed request line" /\
    exists l, isLine l /\
      pending (mkBufReader ("BAD" +:+ CRLF +:+ CRLF) io_EOF)
      = l +:+ String LF (pending (mkBufReader CRLF io_EOF)) /\
      (length (Split (TrimSpace l) SP) < 3)%nat)
   \/ (Errorf "malformed request line"
       = rerr (mkBufReader ("BAD" +:+ CRLF +:+ CRLF) io_EOF) /\
       pending (mkBufReader CRLF io_EOF) = "")).
Proof.
  apply (parseRequest_error_cases 1%nat tt
           (mkBufReader ("BAD" +:+ CRLF +:+ CRLF) io_EOF) (mkBufReader CRLF io_EOF)).
  vm_compute. reflexivity.
Defined.

Lemma parseRequest_truncated_witness :
  parseRequest 1%nat tt
    (mkBufReader (wire (demo_request_line :: ["Host: a" +:+ String CR ""]) +:+ "Accept")
       (netError "reset"))
  = (inr (netError "reset"), mkBufReader "" (netError "reset")).
Proof.
  apply (parseRequest_truncated 1%nat tt (netError "reset") demo_request_line
           ["Host: a" +:+ String CR ""] "Accept").
  - reflexivity.
  - vm_compute. lia.
  - repeat constructor. vm_compute. discriminate.
  - reflexivity.
Defined.

Lemma parseRequest_headers_normalized_witness :
  TrimSpace "Host" = "Host" /\ TrimSpace "a" = "a" /\
  hasByte COLON "Host" = false /\ hasByte LF "Host" = false /\ hasByte LF "a" = false.
Proof.
  apply (parseRequest_headers_normalized 1%nat tt (mkBufReader demo_stream io_EOF)
           (mkBufReader "body" io_EOF)
           (mkRequest "GET" "/" (<["Host" := "a"]> ∅) tt 1%nat) "Host" "a").
  - vm_compute. reflexivity.
  - vm_compute. reflexivity.
Defined.

Lemma parseRequest_method_uri_witness :
  Method (mkRequest "GET" "/" (<["Host" := "a"]> ∅) tt 1%nat) <> "" /\
  hasByte SP (Method (mkRequest "GET" "/" (<["Host" := "a"]> ∅) tt 1%nat)) = false /\
  hasByte LF (Method (mkRequest "GET" "/" (<["Host" := "a"]> ∅) tt 1%nat)) = false /\
  hasByte SP (URI (mkRequest "GET" "/" (<["Host" := "a"]> ∅) tt 1%nat)) = false /\
  hasByte LF (URI (mkRequest "GET" "/" (<["Host" := "a"]> ∅) tt 1%nat)) = false.
Proof.
  apply (parseRequest_method_uri 1%nat tt (mkBufReader demo_stream io_EOF)
           (mkBufReader "body" io_EOF)).
  vm_compute. reflexivity.
Defined.



Lemma Start_spawns_workers_witness :
  let n := Z.to_nat (workerCount demo_server) in
  exists pre,
    Start demo_server demo_env
    = (StartServing,
       mkServer (Addr demo_server) (Handler demo_server) (workerCount demo_server)
                (jobQueue demo_server) (TLSConfig demo_server)
                (wg demo_server + Z.max 0 (workerCount demo_server))%Z,
       pre ++ acceptLoop (accepts demo_env)) /\
    worker_ids pre = map Z.of_nat (seq 0 n) /\
    served_conns pre = [] /\ nodelay_conns pre = [] /\ logged pre = [] /\
    worker_ids (acceptLoop (accepts demo_env)) = [] /\
    ((workerCount demo_server <= 0)%Z -> worker_ids pre = []).
Proof.
  apply (Start_spawns_workers demo_server demo_env). reflexivity.
Defined.

Lemma Start_serves_every_connection_witness :
  served_conns (Start demo_server demo_env).2 = accepted_conns (accepts demo_env) /\
  nodelay_conns (Start demo_server demo_env).2 = accepted_tcp_conns (accepts demo_env) /\
  logged (Start demo_server demo_env).2 = accept_logs (accepts demo_env).
Proof.
  apply (Start_serves_every_connection demo_server demo_env). reflexivity.
Defined.

Lemma SetTLSConfig_then_Start_witness :
  SetTLSConfig demo_server (inr (netError "no such file"))
  = (Some (netError "no such file"), demo_server) /\
  exists rest,
    (Start (SetTLSConfig demo_server (inl "localhost.crt")).2 demo_env).2
    = SeWrapTLS (mk_tls_Config ["localhost.crt"]) :: rest /\
    tls_wraps rest = [] /\
    worker_ids rest = worker_ids (Start demo_server demo_env).2 /\
    served_conns rest = served_conns (Start demo_server demo_env).2.
Proof.
  apply (SetTLSConfig_then_Start demo_server "localhost.crt"
           (netError "no such file") demo_env).
  reflexivity.
Defined.

Lemma pool_run_bounds_witness :
  chan_cap (pool_queue demo_pool_after) = chan_cap (pool_queue demo_pool) /\
  length (pool_workers demo_pool_after) = length (pool_workers demo_pool) /\
  (length (chan_buf (pool_queue demo_pool_after)) <= chan_cap (pool_queue demo_pool))%nat /\
  (length (in_handler demo_pool_after) <= length (pool_workers demo_pool))%nat.
Proof.
  apply (pool_run_bounds demo_schedule demo_pool demo_pool_after).
  - reflexivity.
  - simpl. lia.
Defined.

Lemma pool_run_fifo_witness :
  chan_buf (pool_queue demo_pool) ++ enqueued demo_schedule
  = received demo_schedule demo_pool ++ chan_buf (pool_queue demo_pool_after).
Proof.
  apply (pool_run_fifo demo_schedule demo_pool demo_pool_after). reflexivity.
Defined.

Lemma pool_without_workers_witness :
  let acts : list (PoolAction unit) :=
    [ActEnqueue (demo_request "/1"); ActEnqueue (demo_request "/2")] in
  let p : Pool unit := mkPool (mkChan 2 []) [] in
  let p' : Pool unit := mkPool (mkChan 2 [demo_request "/1"; demo_request "/2"]) [] in
  acts = map ActEnqueue (enqueued acts) /\
  received acts p = [] /\
  in_handler p' = [] /\
  chan_buf (pool_queue p') = chan_buf (pool_queue p) ++ enqueued acts /\
  (length (enqueued acts)
   <= chan_cap (pool_queue p) - length (chan_buf (pool_queue p)))%nat.
Proof.
  apply (pool_without_workers
           [ActEnqueue (demo_request "/1"); ActEnqueue (demo_request "/2")]
           (mkPool (mkChan 2 []) [])
           (mkPool (mkChan 2 [demo_request "/1"; demo_request "/2"]) [])).
  - reflexivity.
  - simpl. lia.
  - reflexivity.
Defined.




Lemma parseRequest_trimmed_lines_witness :
  (parseRequest 1%nat tt
     (mkBufReader (wire (("GET / HTTP/1.1" +:+ String CR "")
                         :: ["Host: a" +:+ String CR ""; String CR ""]) +:+ "body")
        io_EOF)).1
  = (parseRequest 1%nat tt
       (mkBufReader (wire ("GET / HTTP/1.1" :: ["  Host: a"; ""]) +:+ "body") io_EOF)).1.
Proof.
  apply (parseRequest_trimmed_lines 1%nat tt io_EOF
           ("GET / HTTP/1.1" +:+ String CR "") "GET / HTTP/1.1"
           ["Host: a" +:+ String CR ""; String CR ""] ["  Host: a"; ""] "body").
  - reflexivity.
  - reflexivity.
  - vm_compute. reflexivity.
  - repeat constructor; vm_compute; reflexivity.
Defined.

Lemma parseRequest_header_order_witness :
  parseRequest 1%nat tt
    (mkBufReader
       (wire (demo_request_line ::
                ([] ++ ("Host: a" +:+ String CR "") :: ("Accept: b" +:+ String CR "") :: [])
                ++ [String CR ""]) +:+ "") io_EOF)
  = parseRequest 1%nat tt
    (mkBufReader
       (wire (demo_request_line ::
                ([] ++ ("Accept: b" +:+ String CR "") :: ("Host: a" +:+ String CR "") :: [])
                ++ [String CR ""]) +:+ "") io_EOF).
Proof.
  apply (parseRequest_header_order 1%nat tt io_EOF demo_request_line [] []
           ("Host: a" +:+ String CR "") ("Accept: b" +:+ String CR "") (String CR "") "").
  - reflexivity.
  - vm_compute. lia.
  - repeat constructor; vm_compute; discriminate.
  - reflexivity.
  - vm_compute. reflexivity.
  - intros n1 v1 n2 v2 H1 H2. vm_compute in H1, H2.
    injection H1 as <- <-. injection H2 as <- <-. vm_compute. discriminate.
Defined.

Lemma splitURL_parts_witness :
  splitURL ("http" +:+ String ":" (String SLASH ("" +:+ String SLASH
              ("localhost:50051" +:+ String SLASH "api/users"))))
  = URLParts "http" "localhost:50051" (String SLASH "api/users") /\
  splitURL ("http" +:+ String ":" (String SLASH ("" +:+ String SLASH "localhost:50051")))
  = URLInvalid /\
  splitURL (String SLASH ("" +:+ String SLASH ("localhost:50051" +:+ String SLASH "api/users")))
  = URLPanic.
Proof.
  apply (splitURL_parts "http" "" "localhost:50051" "api/users" ":"); reflexivity.
Defined.
